(** * Students CRUD utility (app/main.py): model and verified properties

    The program is a thin layer between command-line verbs and four
    parameterised SQL statements on one table, plus a text-table renderer.
    The embedding follows the source function by function:
    - [get_conn], [getAllStudents], [addStudent], [updateStudentEmail],
      [deleteStudent] run in a state-and-exception monad over a [world]
      holding the interpreter's builtins that are left abstract, the store,
      the driver's connections and the log of connection attempts;
    - [print_table] is a function from the rows to the lines it prints;
    - [main] dispatches one parsed command and produces the two output
      streams and the exit status.

    A Python text ([str]) is held as the bytes of its UTF-8 encoding, one
    [ascii] per byte, so that [+] is [+:+] and [len] counts the bytes that
    start a character.  The two output streams take every such text. *)

From stdpp Require Import gmap strings list sorting pretty.
From Stdlib Require Import Ascii.

Open Scope Z_scope.

(** ** Python values and exceptions *)

(** A calendar date.  In the table it is the store's DATE, whose years go
    far beyond those of a [datetime.date]; in a row handed over by the
    driver it is a [datetime.date], whose year lies between 1 and 9999.
    [year] is the number the driver reads from the server's text. *)
Record date := Date { year : Z; month : Z; day : Z }.

(** The values that appear in a result row. *)
Inductive value :=
| VNone
| VInt (z : Z)
| VStr (s : string)
| VDate (d : date).

(** A [dict] with string keys, in insertion order. *)
Abbreviation row := (list (string * value)).

(** The exceptions the program can meet.  [RuntimeError] and [ValueError] are
    raised by [get_conn] itself, [KeyError] and [TypeError] by subscripting,
    the others are the driver's (psycopg2) classes.  All of them derive from
    [Exception]. *)
Inductive exn :=
| RuntimeError (msg : string)
| ValueError (msg : string)
| KeyError (key : string)
| TypeError (msg : string)
| OperationalError (msg : string)
| IntegrityError (msg : string)
| DataError (msg : string)
| InternalError (msg : string)
| InterfaceError (msg : string)
| IndexError (msg : string).

(** The builtins of the interpreter that the model leaves abstract, since
    they rest on the Unicode tables: [int] on a text in base 10 ([None] for
    its [ValueError]) and [repr] of a text. *)
Record runtime := Runtime {
  int_of : string -> option Z;
  repr_of : string -> string
}.

(** [str(e)]: the message, and for [KeyError] the [repr] of the key. *)
Definition exn_str (r : runtime) (e : exn) : string :=
  match e with
  | RuntimeError m | ValueError m | TypeError m | OperationalError m
  | IntegrityError m | DataError m | InternalError m | InterfaceError m
  | IndexError m => m
  | KeyError k => repr_of r k
  end.

Fixpoint zeros (n : nat) : string :=
  match n with
  | O => ""
  | S n' => String "0" (zeros n')
  end.

(** The format [%0wd] of a number that is not negative, given its decimal
    digits [s]: zeros in front up to [w] characters, none cut. *)
Definition zero_pad (w : nat) (s : string) : string :=
  zeros (w - String.length s) +:+ s.

(** [date.isoformat()], which is [str] of a date: [%04d-%02d-%02d]. *)
Definition isoformat (d : date) : string :=
  zero_pad 4 (pretty (year d)) +:+ "-" +:+ zero_pad 2 (pretty (month d))
  +:+ "-" +:+ zero_pad 2 (pretty (day d)).

(** [str(v)]. *)
Definition str (v : value) : string :=
  match v with
  | VNone => "None"
  | VInt z => pretty z
  | VStr s => s
  | VDate d => isoformat d
  end.

(** A continuation byte of UTF-8, [10xxxxxx]. *)
Definition is_continuation (c : ascii) : bool :=
  match c with
  | Ascii _ _ _ _ _ _ b6 b7 => b7 && negb b6
  end.

(** [len(s)]: the number of characters (code points) of the text, that is
    of the bytes of its encoding that do not continue a character. *)
Fixpoint py_len (s : string) : nat :=
  match s with
  | EmptyString => O
  | String c s' => if is_continuation c then py_len s' else S (py_len s')
  end.

(** ** The environment, and samples of the abstract builtins *)

(** [os.environ]; [os.getenv v] is [env !! v]. *)
Abbreviation environ := (gmap string string).

Definition is_digit (c : ascii) : bool :=
  match Ascii.is_nat c with Some _ => true | None => false end.

Definition digit_val (c : ascii) : Z :=
  match Ascii.is_nat c with Some n => Z.of_nat n | None => 0 end.

Fixpoint lstrip (s : string) : string :=
  match s with
  | String c s' => if Ascii.is_space c then lstrip s' else s
  | EmptyString => EmptyString
  end.

Definition strip (s : string) : string :=
  String.rev (lstrip (String.rev (lstrip s))).

(** Digits with single underscores between them, most significant first.
    [acc] is the value read so far, [after_digit] tells whether the previous
    character was a digit. *)
Fixpoint int_digits (s : string) (acc : Z) (after_digit : bool) : option Z :=
  match s with
  | EmptyString => if after_digit then Some acc else None
  | String c s' =>
      if is_digit c then int_digits s' (10 * acc + digit_val c) true
      else if decide (c = "_"%char)
           then (if after_digit then int_digits s' acc false else None)
           else None
  end.

(** A sample of [int] in base 10 for the examples, which follows the builtin
    on printable ASCII text: surrounding blanks, an optional sign, digits. *)
Definition py_int (s : string) : option Z :=
  match strip s with
  | String "-" s' => Z.opp <$> int_digits s' 0 false
  | String "+" s' => int_digits s' 0 false
  | s' => int_digits s' 0 false
  end.

(** A sample of [repr] for the examples, which follows the builtin on
    printable ASCII text without quotes and backslashes. *)
Definition repr_str (s : string) : string := "'" +:+ s +:+ "'".

(** ** The store and the driver

    The table's declaration is not part of the program; its constraints are
    enforced by the store and reach the program as driver exceptions. *)

Record student := Student {
  student_id : Z;
  first_name : string;
  last_name : string;
  email : string;
  enrollment_date : option date
}.

(** The keyword arguments of [psycopg2.connect]; the texts are results of
    [os.getenv]. *)
Record conn_params := ConnParams {
  host : option string;
  port : Z;
  user : option string;
  password : option string;
  dbname : option string
}.

(** What the server decides on its own: whom it lets in, which texts its
    DATE input routine accepts, and which texts the checks of the table let
    into a column (by column name).  The client encoding of its connections
    is UTF-8, so that the driver can send every text and read every text
    back. *)
Record server := Server {
  accepts : conn_params -> bool;
  date_in : string -> option date;
  text_ok : string -> string -> bool
}.

(** Transaction state of a connection (the driver opens a transaction at the
    first statement; a failed statement aborts it). *)
Inductive txn_status :=
| Idle
| InTxn (working : list student)
| Aborted.

(** A driver connection: the [closed] attribute, the transaction state and
    the number of its open cursors. *)
Record connection := Connection {
  closed : bool;
  txn : txn_status;
  cursors : nat
}.

Record world := World {
  rt : runtime;
  srv : server;
  students : list student;      (* committed rows of the table *)
  seq : Z;                      (* next value of the student_id sequence *)
  conns : list connection;      (* every connection opened, by handle *)
  attempts : list conn_params;  (* every call of psycopg2.connect *)
  stdout : list string;         (* lines printed to sys.stdout *)
  stderr : list string          (* lines printed to sys.stderr *)
}.

Definition set_students (t : list student) (w : world) : world :=
  World (rt w) (srv w) t (seq w) (conns w) (attempts w) (stdout w) (stderr w).
Definition set_seq (n : Z) (w : world) : world :=
  World (rt w) (srv w) (students w) n (conns w) (attempts w) (stdout w) (stderr w).
Definition set_conns (cs : list connection) (w : world) : world :=
  World (rt w) (srv w) (students w) (seq w) cs (attempts w) (stdout w) (stderr w).
Definition set_attempts (a : list conn_params) (w : world) : world :=
  World (rt w) (srv w) (students w) (seq w) (conns w) a (stdout w) (stderr w).
Definition set_stdout (o : list string) (w : world) : world :=
  World (rt w) (srv w) (students w) (seq w) (conns w) (attempts w) o (stderr w).
Definition set_stderr (o : list string) (w : world) : world :=
  World (rt w) (srv w) (students w) (seq w) (conns w) (attempts w) (stdout w) o.

Definition set_txn (t : txn_status) (c : connection) : connection :=
  Connection (closed c) t (cursors c).
Definition set_cursors (n : nat) (c : connection) : connection :=
  Connection (closed c) (txn c) n.
Definition set_closed (b : bool) (c : connection) : connection :=
  Connection b (txn c) (cursors c).

(** ** The monad: state passing with exceptions *)

Inductive result (A : Type) :=
| Ok (a : A)
| Raise (e : exn).
Arguments Ok {A} a.
Arguments Raise {A} e.

Definition M (A : Type) : Type := world -> result A * world.

Definition ret {A} (a : A) : M A := fun w => (Ok a, w).
Definition raise {A} (e : exn) : M A := fun w => (Raise e, w).
Definition bind {A B} (m : M A) (k : A -> M B) : M B := fun w =>
  match m w with
  | (Ok a, w') => k a w'
  | (Raise e, w') => (Raise e, w')
  end.

Declare Scope prog_scope.
Delimit Scope prog_scope with prog.
Notation "'do' x <- m ; k" := (bind m (fun x => k))
  (at level 10, x name, m at level 100, k at level 200,
   format "'[v' 'do'  x  <-  m ; '/' k ']'") : prog_scope.
Notation "m ;; k" := (bind m (fun _ => k))
  (at level 100, k at level 200, right associativity) : prog_scope.
Open Scope prog_scope.

(** [try: body finally: fin]. *)
Definition finally {A} (body : M A) (fin : M unit) : M A := fun w =>
  match body w with
  | (r, w1) =>
      match fin w1 with
      | (Ok _, w2) => (r, w2)
      | (Raise e, w2) => (Raise e, w2)
      end
  end.

(** Lifting of a pure computation that may raise. *)
Definition lift {A} (r : result A) : M A := fun w => (r, w).

(** A loop that updates [b], and a comprehension, over computations that may
    raise. *)
Fixpoint foldR {A B} (f : B -> A -> result B) (l : list A) (b : B) : result B :=
  match l with
  | [] => Ok b
  | a :: l' =>
      match f b a with
      | Ok b' => foldR f l' b'
      | Raise e => Raise e
      end
  end.

Fixpoint mapR {A B} (f : A -> result B) (l : list A) : result (list B) :=
  match l with
  | [] => Ok []
  | a :: l' =>
      match f a with
      | Ok b =>
          match mapR f l' with
          | Ok bs => Ok (b :: bs)
          | Raise e => Raise e
          end
      | Raise e => Raise e
      end
  end.

(** [print(s)] and [print(s, file=sys.stderr)]. *)
Definition print (s : string) : M unit := fun w =>
  (Ok tt, set_stdout (stdout w ++ [s]) w).
Definition eprint (s : string) : M unit := fun w =>
  (Ok tt, set_stderr (stderr w ++ [s]) w).

(** ** The four statements and what the store does with them *)

Inductive statement :=
| SqlSelect
| SqlInsert (first last mail : option string) (d : option string)
| SqlUpdate (mail : string) (id : Z)
| SqlDelete (id : Z).

(** What a cursor holds after [execute]: [rowcount] and the rows to fetch,
    each as column name and value in column order. *)
Record outcome := Outcome {
  rowcount : Z;
  fetched : list row
}.

Definition by_id : relation student := fun a b => student_id a <= student_id b.

Global Instance by_id_dec : RelDecision by_id.
Proof. intros a b. unfold by_id. apply _. Defined.

Global Instance by_id_trans : Transitive by_id.
Proof. intros a b c. unfold by_id. lia. Qed.

Global Instance by_id_total : Total by_id.
Proof. intros a b. unfold by_id. lia. Qed.

Definition date_value (d : option date) : value :=
  match d with Some x => VDate x | None => VNone end.

(** A table row as the [SELECT] yields it, columns in its order; the driver
    builds the Python values when the row is fetched. *)
Definition student_row (r : student) : row :=
  [("student_id", VInt (student_id r)); ("first_name", VStr (first_name r));
   ("last_name", VStr (last_name r)); ("email", VStr (email r));
   ("enrollment_date", date_value (enrollment_date r))].

Definition set_email (mail : string) (r : student) : student :=
  Student (student_id r) (first_name r) (last_name r) mail (enrollment_date r).

Definition has_id (id : Z) (r : student) : bool := bool_decide (student_id r = id).

(** A text bound to the DATE column passes the server's input routine; the
    absent argument ([None], bound as NULL) needs no parsing. *)
Definition date_param (s : server) (d : option string) : option (option date) :=
  match d with
  | None => Some None
  | Some txt => Some <$> date_in s txt
  end.

(** Modelled from the spec: the declaration of the [students] table, which
    the program assumes and does not create.  [student_id] is the primary
    key, assigned from a sequence; [first_name], [last_name] and [email] are
    not nullable; [email] is unique; [enrollment_date] is a nullable DATE.
    What the table requires of the content of a text column is the
    server's [text_ok], and what its DATE input takes is the server's
    [date_in]; [spec_table] below says what the specification gives for
    both.  A failed statement changes no row; the sequence is not
    transactional, so a row rejected by a constraint still uses up its
    number, whereas a text that is not a date is refused before the row is
    formed.  The checks of an [UPDATE] are written for a table that
    satisfies the primary key (one row at most is updated).  The message
    texts stand for the server's. *)
Definition run_statement (s : server) (st : statement) (tbl : list student)
    (next : Z) : result outcome * list student * Z :=
  match st with
  | SqlSelect =>
      let sorted := merge_sort by_id tbl in
      (Ok (Outcome (Z.of_nat (length sorted)) (student_row <$> sorted)), tbl, next)
  | SqlInsert first last mail d =>
      match date_param s d with
      | None => (Raise (DataError "invalid input syntax for type date"), tbl, next)
      | Some dt =>
          match first, last, mail with
          | Some f, Some l, Some e =>
              if negb (text_ok s "first_name" f && text_ok s "last_name" l
                       && text_ok s "email" e)
              then (Raise (IntegrityError "new row violates check constraint"),
                    tbl, next + 1)
              else if bool_decide (next ∈ student_id <$> tbl)
              then (Raise (IntegrityError
                      "duplicate key value violates unique constraint on student_id"),
                    tbl, next + 1)
              else if bool_decide (e ∈ email <$> tbl)
              then (Raise (IntegrityError
                      "duplicate key value violates unique constraint on email"),
                    tbl, next + 1)
              else (Ok (Outcome 1 [[("student_id", VInt next)]]),
                    tbl ++ [Student next f l e dt], next + 1)
          | _, _, _ =>
              (Raise (IntegrityError "null value violates not-null constraint"),
               tbl, next + 1)
          end
      end
  | SqlUpdate mail id =>
      let hit := filter (fun r => student_id r = id) tbl in
      if bool_decide (Exists (fun r => student_id r = id) tbl)
         && negb (text_ok s "email" mail)
      then (Raise (IntegrityError "new row violates check constraint"),
            tbl, next)
      else
      if bool_decide (Exists (fun r => student_id r = id) tbl
                      ∧ Exists (fun r => student_id r ≠ id ∧ email r = mail) tbl)
      then (Raise (IntegrityError
              "duplicate key value violates unique constraint on email"),
            tbl, next)
      else (Ok (Outcome (Z.of_nat (length hit)) []),
            (fun r => if has_id id r then set_email mail r else r) <$> tbl, next)
  | SqlDelete id =>
      let hit := filter (fun r => student_id r = id) tbl in
      (Ok (Outcome (Z.of_nat (length hit)) []),
       filter (fun r => student_id r ≠ id) tbl, next)
  end.

(** ** The driver (psycopg2) *)

Definition upd_conn (c : nat) (f : connection -> connection) (w : world) : world :=
  set_conns (alter f c (conns w)) w.

(** [psycopg2.connect] with keyword arguments [p]: every call is an attempt
    on the store. *)
Definition connect (p : conn_params) : M nat := fun w =>
  let w' := set_attempts (attempts w ++ [p]) w in
  if accepts (srv w) p
  then (Ok (length (conns w)), set_conns (conns w ++ [Connection false Idle 0]) w')
  else (Raise (OperationalError "connection to server failed"), w').

(** [conn.cursor()]. *)
Definition cursor (c : nat) : M nat := fun w =>
  match conns w !! c with
  | Some cn =>
      if closed cn then (Raise (InterfaceError "connection already closed"), w)
      else (Ok c, upd_conn c (fun cn => set_cursors (S (cursors cn)) cn) w)
  | None => (Raise (InterfaceError "connection already closed"), w)
  end.

(** [cur.close()]. *)
Definition cursor_close (c : nat) : M unit := fun w =>
  (Ok tt, upd_conn c (fun cn => set_cursors (Nat.pred (cursors cn)) cn) w).

(** The texts bound to a statement's parameters. *)
Definition stmt_texts (st : statement) : list string :=
  match st with
  | SqlInsert first last mail d => omap id [first; last; mail; d]
  | SqlUpdate mail _ => [mail]
  | SqlSelect | SqlDelete _ => []
  end.

Fixpoint has_nul (s : string) : bool :=
  match s with
  | EmptyString => false
  | String c s' => bool_decide (c = "000"%char) || has_nul s'
  end.

(** [cur.execute(stmt, params)] on a cursor of connection [c].  The driver
    quotes the parameters before it sends anything, and refuses a text that
    holds a NUL character. *)
Definition execute (c : nat) (st : statement) : M outcome := fun w =>
  match conns w !! c with
  | Some cn =>
      if closed cn then (Raise (InterfaceError "connection already closed"), w)
      else if existsb has_nul (stmt_texts st)
      then (Raise (ValueError
              "A string literal cannot contain NUL (0x00) characters."), w)
      else
        match txn cn with
        | Aborted =>
            (Raise (InternalError "current transaction is aborted"), w)
        | t =>
            let tbl := match t with InTxn working => working | _ => students w end in
            match run_statement (srv w) st tbl (seq w) with
            | (Ok res, tbl', next') =>
                (Ok res, set_seq next' (upd_conn c (set_txn (InTxn tbl')) w))
            | (Raise e, _, next') =>
                (Raise e, set_seq next' (upd_conn c (set_txn Aborted) w))
            end
        end
  | None => (Raise (InterfaceError "connection already closed"), w)
  end.

(** [conn.commit()]: the rows written in the transaction become the table. *)
Definition commit (c : nat) : M unit := fun w =>
  match conns w !! c with
  | Some cn =>
      if closed cn then (Raise (InterfaceError "connection already closed"), w)
      else
        let w' := upd_conn c (set_txn Idle) w in
        match txn cn with
        | InTxn working => (Ok tt, set_students working w')
        | _ => (Ok tt, w')
        end
  | None => (Raise (InterfaceError "connection already closed"), w)
  end.

(** [conn.rollback()]. *)
Definition rollback (c : nat) : M unit := fun w =>
  match conns w !! c with
  | Some cn =>
      if closed cn then (Raise (InterfaceError "connection already closed"), w)
      else (Ok tt, upd_conn c (set_txn Idle) w)
  | None => (Raise (InterfaceError "connection already closed"), w)
  end.

(** [with conn: body].  The connection's [__exit__] ends the transaction,
    by [commit] when the body returned and by [rollback] when it raised; it
    does not close the connection. *)
Definition with_conn {A} (c : nat) (body : nat -> M A) : M A := fun w =>
  match body c w with
  | (Ok a, w1) =>
      match commit c w1 with
      | (Ok _, w2) => (Ok a, w2)
      | (Raise e, w2) => (Raise e, w2)
      end
  | (Raise e, w1) => (Raise e, snd (rollback c w1))
  end.

(** [with conn.cursor() as cur: body]: the cursor's [__exit__] closes it. *)
Definition with_cursor {A} (c : nat) (body : nat -> M A) : M A :=
  do cur <- cursor c;
  finally (body cur) (cursor_close cur).

(** The end of a function whose local [conn] holds the only reference to
    the connection (CPython counts references).  When the function returns,
    its frame is freed, the connection object with it, and the driver closes
    a connection that is deallocated.  When the function raises, the
    traceback of the exception keeps the frame alive, and the connection
    stays as it is while the exception is being handled. *)
Definition local_conn {A} (c : nat) (body : M A) : M A := fun w =>
  match body w with
  | (Ok a, w1) => (Ok a, upd_conn c (set_closed true) w1)
  | (Raise e, w1) => (Raise e, w1)
  end.

(** The driver builds the Python value of a fetched column; a
    [datetime.date] exists for the years 1 to 9999 only. *)
Definition typecast (v : value) : result value :=
  match v with
  | VDate d =>
      if bool_decide (1 <= year d <= 9999) then Ok v
      else Raise (ValueError ("year " +:+ pretty (year d) +:+ " is out of range"))
  | _ => Ok v
  end.

Definition fetch_row (r : row) : result row :=
  mapR (fun kv => match typecast (snd kv) with
                  | Ok v => Ok (fst kv, v)
                  | Raise e => Raise e
                  end) r.

(** [cur.fetchall()] and [cur.fetchone()[0]]. *)
Definition fetchall (res : outcome) : M (list row) :=
  lift (mapR fetch_row (fetched res)).

Definition fetchone_0 (res : outcome) : M value :=
  match fetched res with
  | [] => raise (TypeError "'NoneType' object is not subscriptable")
  | r :: _ =>
      do r' <- lift (fetch_row r);
      match r' with
      | [] => raise (IndexError "tuple index out of range")
      | (_, v) :: _ => ret v
      end
  end.

(** ** The program: connection provider *)

Definition required_vars : list string :=
  ["PGHOST"; "PGPORT"; "PGUSER"; "PGPASSWORD"; "PGDATABASE"].

(** [not os.getenv(v)]: the variable is absent, or present and empty. *)
Definition unset (env : environ) (v : string) : Prop :=
  env !! v = None ∨ env !! v = Some "".

Global Instance unset_dec env v : Decision (unset env v).
Proof. unfold unset. apply _. Defined.

Definition missing_vars (env : environ) : list string :=
  filter (unset env) required_vars.

Definition missing_msg (missing : list string) : string :=
  "Missing env vars: " +:+ String.concat ", " missing +:+ ". "
  +:+ "Set them in your environment or app/.env".

(** [int(os.getenv(v))]. *)
Definition int_getenv (env : environ) (v : string) : M Z := fun w =>
  match env !! v with
  | None => raise (TypeError "int() argument must be a string, a bytes-like object or a real number, not 'NoneType'") w
  | Some s =>
      match int_of (rt w) s with
      | Some n => ret n w
      | None => raise (ValueError ("invalid literal for int() with base 10: "
                                   +:+ repr_of (rt w) s)) w
      end
  end.

Definition get_conn (env : environ) : M nat :=
  let missing := missing_vars env in
  match missing with
  | _ :: _ => raise (RuntimeError (missing_msg missing))
  | [] =>
      do p <- int_getenv env "PGPORT";
      connect (ConnParams (env !! "PGHOST") p (env !! "PGUSER")
                          (env !! "PGPASSWORD") (env !! "PGDATABASE"))
  end.

(** ** The program: data access operations *)

Definition getAllStudents (env : environ) : M (list row) :=
  do conn <- get_conn env;
  local_conn conn (
  with_conn conn (fun conn =>
    with_cursor conn (fun cur =>
      do res <- execute cur SqlSelect;
      do rows <- fetchall res;
      ret rows))).

Definition addStudent (env : environ) (first last mail : option string)
    (enrollment : option string) : M value :=
  do conn <- get_conn env;
  local_conn conn (
  with_conn conn (fun conn =>
    with_cursor conn (fun cur =>
      do res <- execute cur (SqlInsert first last mail enrollment);
      do new_id <- fetchone_0 res;
      commit conn;;
      ret new_id))).

Definition updateStudentEmail (env : environ) (id : Z) (new_email : string) : M Z :=
  do conn <- get_conn env;
  local_conn conn (
  with_conn conn (fun conn =>
    with_cursor conn (fun cur =>
      do res <- execute cur (SqlUpdate new_email id);
      let affected := rowcount res in
      commit conn;;
      ret affected))).

Definition deleteStudent (env : environ) (id : Z) : M Z :=
  do conn <- get_conn env;
  local_conn conn (
  with_conn conn (fun conn =>
    with_cursor conn (fun cur =>
      do res <- execute cur (SqlDelete id);
      let affected := rowcount res in
      commit conn;;
      ret affected))).

(** ** The program: table renderer *)

(** [r[h]]. *)
Fixpoint getitem (r : row) (h : string) : result value :=
  match r with
  | [] => Raise (KeyError h)
  | (k, v) :: r' => if decide (k = h) then Ok v else getitem r' h
  end.

Definition keys (r : row) : list string := fst <$> r.

Definition is_none (v : value) : bool :=
  match v with VNone => true | _ => false end.

(** [len(str(v)) if v is not None else 0]. *)
Definition cell_len (v : value) : nat :=
  if is_none v then 0%nat else py_len (str v).

(** [str(v) if v is not None else '']. *)
Definition cell (v : value) : string :=
  if is_none v then "" else str v.

(** [char * n]. *)
Fixpoint str_mul (char : string) (n : nat) : string :=
  match n with
  | O => ""
  | S n' => char +:+ str_mul char n'
  end.

(** The format [{s:<{w}}]: left-justified in [w] columns, never cut. *)
Definition ljust (s : string) (w : nat) : string :=
  s +:+ str_mul " " (w - py_len s).

Fixpoint for_each {A} (l : list A) (body : A -> M unit) : M unit :=
  match l with
  | [] => ret tt
  | a :: l' => body a;; for_each l' body
  end.

(** [widths = {h: len(h) for h in headers}]. *)
Definition init_widths (headers : list string) : gmap string nat :=
  list_to_map ((fun h => (h, py_len h)) <$> headers).

(** [widths[h] = max(widths[h], len(str(r[h])) if r[h] is not None else 0)]. *)
Definition widen (r : row) (widths : gmap string nat) (h : string)
    : result (gmap string nat) :=
  match getitem r h with
  | Ok v => Ok (<[h := Nat.max (widths !!! h) (cell_len v)]> widths)
  | Raise e => Raise e
  end.

Definition compute_widths (headers : list string) (rows : list row)
    : result (gmap string nat) :=
  foldR (fun ws r => foldR (widen r) headers ws) rows (init_widths headers).

(** The text printed by the local function [line(char)]. *)
Definition line (widths : gmap string nat) (headers : list string)
    (char : string) : string :=
  "+" +:+ String.concat "+"
            ((fun h => str_mul char (widths !!! h + 2)) <$> headers) +:+ "+".

Definition header_line (widths : gmap string nat) (headers : list string) : string :=
  "| " +:+ String.concat " | " ((fun h => ljust h (widths !!! h)) <$> headers)
  +:+ " |".

Definition row_line (widths : gmap string nat) (headers : list string)
    (r : row) : result string :=
  match mapR (fun h => match getitem r h with
                       | Ok v => Ok (ljust (cell v) (widths !!! h))
                       | Raise e => Raise e
                       end) headers with
  | Ok cells => Ok ("| " +:+ String.concat " | " cells +:+ " |")
  | Raise e => Raise e
  end.

Definition print_table (rows : list row) : M unit :=
  match rows with
  | [] => print "(no rows)"
  | r0 :: _ =>
      let headers := keys r0 in
      do widths <- lift (compute_widths headers rows);
      print (line widths headers "=");;
      print (header_line widths headers);;
      print (line widths headers "=");;
      for_each rows (fun r =>
        do s <- lift (row_line widths headers r);
        print s);;
      print (line widths headers "=")
  end.

(** ** The program: command dispatcher *)

(** The namespace built by [parser.parse_args()]. *)
Inductive command :=
| CmdGetAll
| CmdAdd (first last mail : string) (enrollment : option string)
| CmdUpdateEmail (id : Z) (mail : string)
| CmdDelete (id : Z).

(** The body of the [try] block. *)
Definition dispatch (env : environ) (cmd : command) : M unit :=
  match cmd with
  | CmdGetAll =>
      do rows <- getAllStudents env;
      print_table rows
  | CmdAdd first last mail enrollment =>
      do new_id <- addStudent env (Some first) (Some last) (Some mail) enrollment;
      print ("Inserted student_id=" +:+ str new_id);;
      do rows <- getAllStudents env;
      print_table rows
  | CmdUpdateEmail id mail =>
      do affected <- updateStudentEmail env id mail;
      print ("Rows updated: " +:+ pretty affected);;
      do rows <- getAllStudents env;
      print_table rows
  | CmdDelete id =>
      do affected <- deleteStudent env id;
      print ("Rows deleted: " +:+ pretty affected);;
      do rows <- getAllStudents env;
      print_table rows
  end.

(** [main] after argument parsing: the exit status and the final world.
    Every constructor of [exn] is an [Exception], so the handler takes all. *)
Definition main (env : environ) (cmd : command) (w : world) : Z * world :=
  match dispatch env cmd w with
  | (Ok _, w') => (0, w')
  | (Raise e, w') => (1, snd (eprint ("ERROR: " +:+ exn_str (rt w') e) w'))
  end.

(** ** Notions used in the statements *)

(** [needle in hay], for two texts. *)
Definition contains (needle hay : string) : Prop :=
  exists pre post, hay = pre +:+ needle +:+ post.

(** The keyword arguments [get_conn] resolves from a complete environment. *)
Definition resolve (r : runtime) (env : environ) : option conn_params :=
  match missing_vars env with
  | [] =>
      match env !! "PGPORT" ≫= int_of r with
      | Some p => Some (ConnParams (env !! "PGHOST") p (env !! "PGUSER")
                                   (env !! "PGPASSWORD") (env !! "PGDATABASE"))
      | None => None
      end
  | _ :: _ => None
  end.

(** The configuration is complete and well formed and the server lets the
    program in. *)
Definition can_connect (env : environ) (w : world) : Prop :=
  exists p, resolve (rt w) env = Some p ∧ accepts (srv w) p = true.

(** A connection with no transaction in progress and no open cursor, open
    and closed. *)
Definition idle_conn : connection := Connection false Idle 0.
Definition closed_conn : connection := Connection true Idle 0.

(** The world right after [psycopg2.connect] succeeded with arguments [p]. *)
Definition connected (p : conn_params) (w : world) : world :=
  set_conns (conns w ++ [idle_conn]) (set_attempts (attempts w ++ [p]) w).

(** The world after a connection with arguments [p] was opened and the
    operation on it ended, leaving the connection as [c], the table as
    [tbl] and the sequence at [next]. *)
Definition ended (c : connection) (p : conn_params) (tbl : list student)
    (next : Z) (w : world) : world :=
  World (rt w) (srv w) tbl next (conns w ++ [c]) (attempts w ++ [p])
        (stdout w) (stderr w).

(** After an operation that returned, and after one that raised. *)
Definition after_return (p : conn_params) (tbl : list student) (next : Z)
    (w : world) : world :=
  ended closed_conn p tbl next w.
Definition after_raise (p : conn_params) (next : Z) (w : world) : world :=
  ended idle_conn p (students w) next w.

(** What [execute] makes of a statement: the driver's refusal of a NUL, or
    what the store does. *)
Definition drive (s : server) (st : statement) (tbl : list student) (next : Z)
    : result outcome * list student * Z :=
  if existsb has_nul (stmt_texts st)
  then (Raise (ValueError "A string literal cannot contain NUL (0x00) characters."),
        tbl, next)
  else run_statement s st tbl next.

(** From [w] to [w'] nothing was written to the error stream and at most
    [n] attempts were made on the store. *)
Definition at_most (n : nat) (w w' : world) : Prop :=
  stderr w' = stderr w
  ∧ exists l, attempts w' = attempts w ++ l ∧ (length l <= n)%nat.

(** The primary key constraint on the committed table. *)
Definition pk_ok (w : world) : Prop := NoDup (student_id <$> students w).

(** Every date of the table has a [datetime.date]. *)
Definition in_range (r : student) : Prop :=
  match enrollment_date r with
  | Some d => 1 <= year d <= 9999
  | None => True
  end.

Global Instance in_range_dec r : Decision (in_range r).
Proof. unfold in_range. destruct (enrollment_date r); apply _. Defined.

Definition fetchable (tbl : list student) : Prop := Forall in_range tbl.

Definition is_leap (y : Z) : bool :=
  (y mod 4 =? 0) && (negb (y mod 100 =? 0) || (y mod 400 =? 0)).

Definition days_in_month (y m : Z) : Z :=
  if bool_decide (m ∈ [1; 3; 5; 7; 8; 10; 12]) then 31
  else if bool_decide (m ∈ [4; 6; 9; 11]) then 30
  else if is_leap y then 29 else 28.

(** The texts of the form [YYYY-MM-DD] that name a calendar date, the form
    the specification and the command line give for the date argument. *)
Definition iso_date (s : string) : option date :=
  match String.list_ascii_of_string s with
  | [y1; y2; y3; y4; "-"%char; m1; m2; "-"%char; d1; d2] =>
      if forallb is_digit [y1; y2; y3; y4; m1; m2; d1; d2] then
        let y := 1000 * digit_val y1 + 100 * digit_val y2
                 + 10 * digit_val y3 + digit_val y4 in
        let m := 10 * digit_val m1 + digit_val m2 in
        let d := 10 * digit_val d1 + digit_val d2 in
        if bool_decide (1 <= y ∧ 1 <= m <= 12 ∧ 1 <= d <= days_in_month y m)
        then Some (Date y m d) else None
      else None
  | _ => None
  end.

Definition required_columns : list string := ["first_name"; "last_name"; "email"].

(** Modelled from the spec: what the declaration of the table, which is not
    in the repository, requires of the content of its columns.  The three
    required columns hold non-empty text (sections 3 and 4.2), and nothing
    else is asked of a text; the enrollment date must parse as a calendar
    date, of the form [YYYY-MM-DD] (sections 4.2 and 4.4). *)
Definition spec_table (s : server) : Prop :=
  (forall col txt, col ∈ required_columns ->
     text_ok s col txt = negb (bool_decide (txt = "")))
  ∧ (forall txt, iso_date txt = None -> date_in s txt = None).

(** The width the specification gives to column [h]: the larger of the
    header's length and the lengths of the column's values in their string
    form, a null value counting for nothing. *)
Definition value_width (v : value) : nat :=
  match v with
  | VNone => 0%nat
  | _ => py_len (str v)
  end.

(** The value of column [h] in a row that has it. *)
Definition field (r : row) (h : string) : value :=
  match getitem r h with
  | Ok v => v
  | Raise _ => VNone
  end.

Definition col_width (rows : list row) (h : string) : nat :=
  Nat.max (py_len h) (max_list ((fun r => value_width (field r h)) <$> rows)).

(** Two records have the same keys. *)
Definition shares_keys (r0 r : row) : Prop :=
  forall h, h ∈ keys r0 <-> h ∈ keys r.

(** The border segment the specification gives to column [h]. *)
Definition segment (rows : list row) (h : string) : string :=
  str_mul "=" (col_width rows h + 2).

(** The text of a data line when every cell is there. *)
Definition data_line (widths : gmap string nat) (headers : list string)
    (r : row) : string :=
  "| " +:+ String.concat " | "
             ((fun h => ljust (cell (field r h)) (widths !!! h)) <$> headers)
  +:+ " |".

(** A text made of the character [c] only. *)
Fixpoint all_char (c : ascii) (s : string) : Prop :=
  match s with
  | EmptyString => True
  | String c' s' => c' = c ∧ all_char c s'
  end.

(** The table as the specification draws it.  For no record, the
    placeholder.  Otherwise the columns are the keys of the first record,
    each with the width [col_width]; a border is a [+], then for each
    column its segment and a [+]; a row holds its cells left-justified in
    the width of their columns, with a blank on each side and [|] around
    and between them; a null value is shown as nothing.  The lines are a
    border, the row of the column names, a border, a row for each record,
    and a border. *)
Definition shown (v : value) : string :=
  match v with
  | VNone => ""
  | _ => str v
  end.

Definition border (rows : list row) (headers : list string) : string :=
  "+" +:+ String.concat "+" (segment rows <$> headers) +:+ "+".

Definition framed (cells : list string) : string :=
  "| " +:+ String.concat " | " cells +:+ " |".

Definition render (rows : list row) : list string :=
  match rows with
  | [] => ["(no rows)"]
  | r0 :: _ =>
      let headers := keys r0 in
      [border rows headers;
       framed ((fun h => ljust h (col_width rows h)) <$> headers);
       border rows headers]
      ++ ((fun r => framed ((fun h => ljust (shown (field r h)) (col_width rows h))
                              <$> headers)) <$> rows)
      ++ [border rows headers]
  end.

(** A call of one of the four operations, and a history of calls. *)
Inductive call :=
| CallList
| CallAdd (first last mail : option string) (enrollment : option string)
| CallUpdate (id : Z) (mail : string)
| CallDelete (id : Z).

Inductive answer :=
| Rows (rows : list row)
| NewId (v : value)
| Affected (n : Z).

Definition perform (env : environ) (c : call) : M answer :=
  match c with
  | CallList => do rows <- getAllStudents env; ret (Rows rows)
  | CallAdd f l e d => do v <- addStudent env f l e d; ret (NewId v)
  | CallUpdate id e => do n <- updateStudentEmail env id e; ret (Affected n)
  | CallDelete id => do n <- deleteStudent env id; ret (Affected n)
  end.

(** The statement a call executes, and the value it makes of the
    statement's outcome ([next] is the sequence value before the call);
    fetching the rows of a list may raise. *)
Definition stmt_of (c : call) : statement :=
  match c with
  | CallList => SqlSelect
  | CallAdd f l e d => SqlInsert f l e d
  | CallUpdate id e => SqlUpdate e id
  | CallDelete id => SqlDelete id
  end.

Definition answer_of (c : call) (res : outcome) (next : Z) : result answer :=
  match c with
  | CallList =>
      match mapR fetch_row (fetched res) with
      | Ok rows => Ok (Rows rows)
      | Raise e => Raise e
      end
  | CallAdd _ _ _ _ => Ok (NewId (VInt next))
  | CallUpdate _ _ | CallDelete _ => Ok (Affected (rowcount res))
  end.

Definition run_history (env : environ) (h : list call) (w : world) : world :=
  foldl (fun w c => snd (perform env c w)) w h.

(** The operation a command of the dispatcher starts with, and the status
    line the dispatcher prints once that operation returned [a], before it
    lists the table again; [get-all] has no status line and lists once. *)
Definition call_of (cmd : command) : call :=
  match cmd with
  | CmdGetAll => CallList
  | CmdAdd f l e d => CallAdd (Some f) (Some l) (Some e) d
  | CmdUpdateEmail id e => CallUpdate id e
  | CmdDelete id => CallDelete id
  end.

Definition status_line (cmd : command) (a : answer) : option string :=
  match cmd, a with
  | CmdAdd _ _ _ _, NewId v => Some ("Inserted student_id=" +:+ str v)
  | CmdUpdateEmail _ _, Affected n => Some ("Rows updated: " +:+ pretty n)
  | CmdDelete _, Affected n => Some ("Rows deleted: " +:+ pretty n)
  | _, _ => None
  end.

(** ** Concrete data for the examples *)

Definition env_ok : environ :=
  list_to_map [("PGHOST", "localhost"); ("PGPORT", "5432"); ("PGUSER", "postgres");
               ("PGPASSWORD", "secret"); ("PGDATABASE", "school")].

Definition rt0 : runtime := Runtime py_int repr_str.

(** A server that checks the password, with the table of the
    specification. *)
Definition srv0 : server :=
  Server (fun p => bool_decide (password p = Some "secret")) iso_date
         (fun _ txt => negb (bool_decide (txt = ""))).

Definition w0 : world := World rt0 srv0 [] 1 [] [] [] [].

Definition ada : student := Student 1 "Ada" "Lovelace" "ada@example.com" None.
Definition bob : student :=
  Student 2 "Bob" "Byte" "bob@example.com" (Some (Date 2023 9 3)).

(** A store holding two records, in the order of a heap after an update. *)
Definition w2 : world := World rt0 srv0 [bob; ada] 3 [] [] [] [].

(** A store where another client recorded a date past the year 9999, which
    the store's DATE type holds. *)
Definition zed : student :=
  Student 3 "Zed" "Zenith" "zed@example.com" (Some (Date 10000 1 1)).
Definition w3 : world := World rt0 srv0 [ada; zed] 4 [] [] [] [].

(** A history of calls on that store. *)
Definition history0 : list call :=
  [CallAdd (Some "Cy") (Some "Coder") (Some "cy@example.com") None;
   CallUpdate 2 "bob@example.org";
   CallDelete 1;
   CallAdd (Some "Di") (Some "Dev") (Some "di@example.com") (Some "2024-02-29")].

(** * Properties *)

(** ** Texts *)

Lemma append_cons (x : ascii) (a b : string) :
  String x a +:+ b = String x (a +:+ b).
Proof. reflexivity. Qed.

Lemma append_nil_l (a : string) : "" +:+ a = a.
Proof. reflexivity. Qed.

Lemma append_assoc (a b c : string) : (a +:+ b) +:+ c = a +:+ (b +:+ c).
Proof.
  induction a as [|x a IH]; [done|]. rewrite !append_cons. by f_equal.
Qed.

Lemma append_nil_r (a : string) : a +:+ "" = a.
Proof.
  induction a as [|x a IH]; [done|]. rewrite append_cons. by f_equal.
Qed.

Lemma contains_refl (s : string) : contains s s.
Proof. exists "", "". by rewrite append_nil_r. Qed.

Lemma contains_app_l (pre s t : string) : contains s t -> contains s (pre +:+ t).
Proof.
  intros (a & b & ->). exists (pre +:+ a), b. by rewrite append_assoc.
Qed.

Lemma contains_app_r (post s t : string) : contains s t -> contains s (t +:+ post).
Proof.
  intros (a & b & ->). exists a, (b +:+ post). by rewrite !append_assoc.
Qed.

Lemma contains_concat (sep v : string) (l : list string) :
  v ∈ l -> contains v (String.concat sep l).
Proof.
  induction l as [|x l IH]; intros Hin; [by apply elem_of_nil in Hin|].
  apply elem_of_cons in Hin as [->|Hin].
  - destruct l as [|y l]; simpl; [apply contains_refl|].
    apply contains_app_r, contains_refl.
  - destruct l as [|y l]; [by apply elem_of_nil in Hin|].
    change (String.concat sep (x :: y :: l))
      with (x +:+ sep +:+ String.concat sep (y :: l)).
    by apply contains_app_l, contains_app_l, IH.
Qed.

(** ** Connection provider *)

Lemma get_conn_missing (env : environ) (w : world) :
  missing_vars env ≠ [] ->
  get_conn env w = (Raise (RuntimeError (missing_msg (missing_vars env))), w).
Proof. unfold get_conn. by destruct (missing_vars env). Qed.

Lemma unset_missing (env : environ) (v : string) :
  v ∈ required_vars -> unset env v -> v ∈ missing_vars env.
Proof. intros Hv Hu. by apply list_elem_of_filter. Qed.

Lemma missing_msg_contains (v : string) (l : list string) :
  v ∈ l -> contains v (missing_msg l).
Proof.
  intros Hv. unfold missing_msg.
  by apply contains_app_l, contains_app_r, contains_concat.
Qed.

Lemma unset_delete (env : environ) (v x : string) :
  env !! v = Some "" -> unset env x <-> unset (delete v env) x.
Proof.
  intros Hv. unfold unset. destruct (decide (v = x)) as [->|Hne].
  - rewrite lookup_delete_eq, Hv. split; [by left | by right].
  - by rewrite lookup_delete_ne.
Qed.

(** C5.  In every environment where at least one of the five required values
    is absent, [get_conn] raises the configuration error ([RuntimeError] in
    the source) with one message that contains the name of every absent
    value; the world is returned as it was, so [psycopg2.connect] was not
    called and the log of attempts on the store did not grow. *)
Theorem get_conn_names_every_absent (env : environ) (w : world) :
  (exists v, v ∈ required_vars ∧ env !! v = None) ->
  exists msg,
    get_conn env w = (Raise (RuntimeError msg), w)
    ∧ attempts (snd (get_conn env w)) = attempts w
    ∧ forall v, v ∈ required_vars -> env !! v = None -> contains v msg.
Proof.
  intros (v0 & Hreq & Habs).
  assert (Hne : missing_vars env ≠ []).
  { intros Hnil. pose proof (unset_missing env v0 Hreq (or_introl Habs)) as Hin.
    rewrite Hnil in Hin. by apply elem_of_nil in Hin. }
  exists (missing_msg (missing_vars env)).
  rewrite (get_conn_missing env w Hne). repeat split.
  intros v Hv Hnone. apply missing_msg_contains, unset_missing; [done|by left].
Qed.

(** C10.  A required variable that is present but empty is handled exactly
    like an absent one: [get_conn] gives the same outcome as in the
    environment without the variable, it raises, and the message contains
    the variable's name. *)
Theorem get_conn_empty_as_absent (env : environ) (v : string) (w : world) :
  v ∈ required_vars -> env !! v = Some "" ->
  get_conn env w = get_conn (delete v env) w
  ∧ exists msg, get_conn env w = (Raise (RuntimeError msg), w) ∧ contains v msg.
Proof.
  intros Hreq Hv.
  assert (Hin : v ∈ missing_vars env) by (apply unset_missing; [done|by right]).
  assert (Hsame : missing_vars (delete v env) = missing_vars env).
  { unfold missing_vars. apply list_filter_iff. intros x.
    symmetry. by apply unset_delete. }
  assert (Hne : missing_vars env ≠ []).
  { intros Hnil. rewrite Hnil in Hin. by apply elem_of_nil in Hin. }
  split.
  - rewrite (get_conn_missing env w Hne).
    rewrite (get_conn_missing (delete v env) w) by by rewrite Hsame.
    by rewrite Hsame.
  - exists (missing_msg (missing_vars env)).
    split; [by apply get_conn_missing | by apply missing_msg_contains].
Qed.

(** ** Renderer: the empty case *)

(** C8.  Given no rows, [print_table] prints the one line [(no rows)] and
    returns: nothing else is written to either stream. *)
Theorem print_table_empty (w : world) :
  print_table [] w = (Ok tt, set_stdout (stdout w ++ ["(no rows)"]) w)
  ∧ stderr (snd (print_table [] w)) = stderr w.
Proof. split; reflexivity. Qed.

(** ** Driver: one operation, one transaction on a fresh connection *)

Lemma lookup_snoc {A} (l : list A) (x : A) : (l ++ [x]) !! length l = Some x.
Proof. by rewrite list_lookup_middle. Qed.

Lemma alter_snoc {A} (f : A -> A) (l : list A) (x : A) :
  alter f (length l) (l ++ [x]) = l ++ [f x].
Proof. rewrite alter_app_r_alt by lia. by rewrite Nat.sub_diag. Qed.

Lemma bind_raise {A B} (m : M A) (k : A -> M B) (w w' : world) (e : exn) :
  m w = (Raise e, w') -> bind m k w = (Raise e, w').
Proof. unfold bind. by intros ->. Qed.

Lemma get_conn_connected (env : environ) (w : world) (p : conn_params) :
  resolve (rt w) env = Some p -> accepts (srv w) p = true ->
  get_conn env w = (Ok (length (conns w)), connected p w).
Proof.
  unfold resolve, get_conn. destruct (missing_vars env); [|done].
  unfold bind, int_getenv.
  destruct (env !! "PGPORT") as [s|]; simpl; [|done].
  destruct (int_of (rt w) s) as [n|]; simpl; [|done].
  intros [= <-] Hacc. unfold ret, connect. simpl. by rewrite Hacc.
Qed.

(** When the program cannot connect, [get_conn] raises; the only trace it may
    leave is one refused attempt. *)
Lemma get_conn_refused (env : environ) (w : world) :
  ¬ can_connect env w ->
  exists e l, get_conn env w = (Raise e, set_attempts (attempts w ++ l) w)
              ∧ (length l <= 1)%nat.
Proof.
  intros Hno. unfold get_conn.
  destruct (missing_vars env) as [|v vs] eqn:Hmiss.
  - unfold bind, int_getenv.
    destruct (env !! "PGPORT") as [s|] eqn:Hport.
    + destruct (int_of (rt w) s) as [n|] eqn:Hint.
      * unfold ret, connect.
        destruct (accepts (srv w) _) eqn:Hacc.
        { exfalso. apply Hno. eexists. split; [|exact Hacc].
          unfold resolve. rewrite Hmiss, Hport. simpl. by rewrite Hint. }
        eexists _, [_]. split; [reflexivity | simpl; lia].
      * eexists _, []. rewrite app_nil_r. destruct w. split; [reflexivity | simpl; lia].
    + eexists _, []. rewrite app_nil_r. destruct w. split; [reflexivity | simpl; lia].
  - eexists _, []. rewrite app_nil_r. destruct w. split; [reflexivity | simpl; lia].
Qed.

#[local] Arguments run_statement : simpl never.

Ltac run_txn :=
  unfold local_conn, with_conn, with_cursor, bind, finally;
  repeat (first
    [ progress (unfold cursor, execute, commit, rollback, cursor_close,
                fetchone_0, ret, raise, lift, upd_conn, connected, fetchall)
    | progress cbn [conns set_conns set_attempts set_seq set_students
                    students seq srv rt attempts stdout stderr closed txn cursors
                    set_txn set_cursors set_closed idle_conn fst snd fetched
                    rowcount stmt_texts existsb]
    | rewrite lookup_snoc
    | rewrite alter_snoc ]).

(** What a successful [INSERT] looks like. *)
Lemma insert_ok (s : server) (f l e d : option string) (tbl tbl' : list student)
    (n n' : Z) (res : outcome) :
  run_statement s (SqlInsert f l e d) tbl n = (Ok res, tbl', n') ->
  exists f' l' e' dt,
    f = Some f' ∧ l = Some l' ∧ e = Some e'
    ∧ date_param s d = Some dt
    ∧ (n ∉ student_id <$> tbl) ∧ (e' ∉ email <$> tbl)
    ∧ res = Outcome 1 [[("student_id", VInt n)]]
    ∧ tbl' = tbl ++ [Student n f' l' e' dt] ∧ n' = n + 1.
Proof.
  unfold run_statement.
  destruct (date_param s d) as [dt|] eqn:Hd; [|done].
  destruct f as [f'|], l as [l'|], e as [e'|]; try done.
  destruct (negb _); [done|].
  case_bool_decide as Hid; [done|]. case_bool_decide as Hmail; [done|].
  intros [= <- <- <-]. by exists f', l', e', dt.
Qed.

Lemma select_run (s : server) (tbl : list student) (n : Z) :
  run_statement s SqlSelect tbl n =
    (Ok (Outcome (Z.of_nat (length (merge_sort by_id tbl)))
                 (student_row <$> merge_sort by_id tbl)), tbl, n).
Proof. reflexivity. Qed.

Lemma drive_insert_ok (s : server) (f l e d : option string)
    (tbl tbl' : list student) (n n' : Z) (res : outcome) :
  drive s (SqlInsert f l e d) tbl n = (Ok res, tbl', n') ->
  run_statement s (SqlInsert f l e d) tbl n = (Ok res, tbl', n').
Proof. unfold drive. by destruct (existsb _ _). Qed.

Lemma getAllStudents_run (env : environ) (w : world) (p : conn_params) :
  resolve (rt w) env = Some p -> accepts (srv w) p = true ->
  getAllStudents env w =
    match mapR fetch_row (student_row <$> merge_sort by_id (students w)) with
    | Ok rows => (Ok rows, after_return p (students w) (seq w) w)
    | Raise e => (Raise e, after_raise p (seq w) w)
    end.
Proof.
  intros Hres Hacc. unfold getAllStudents, bind.
  rewrite (get_conn_connected env w p Hres Hacc).
  run_txn. rewrite select_run. run_txn.
  destruct (mapR fetch_row _) as [rows|e]; run_txn; reflexivity.
Qed.

Lemma addStudent_run (env : environ) (f l e d : option string) (w : world)
    (p : conn_params) :
  resolve (rt w) env = Some p -> accepts (srv w) p = true ->
  addStudent env f l e d w =
    match drive (srv w) (SqlInsert f l e d) (students w) (seq w) with
    | (Ok res, tbl, next) => (Ok (VInt (seq w)), after_return p tbl next w)
    | (Raise e, _, next) => (Raise e, after_raise p next w)
    end.
Proof.
  intros Hres Hacc. unfold addStudent, bind, drive.
  rewrite (get_conn_connected env w p Hres Hacc).
  run_txn.
  destruct (existsb has_nul _); [run_txn; reflexivity|].
  destruct (run_statement _ _ _ _) as [[[res|err] tbl] next] eqn:Hrun; run_txn.
  - apply insert_ok in Hrun as (? & ? & ? & ? & _ & _ & _ & _ & _ & _ & -> & _).
    run_txn. cbn [fetch_row mapR typecast fst snd]. run_txn. reflexivity.
  - reflexivity.
Qed.

Lemma updateStudentEmail_run (env : environ) (id : Z) (mail : string)
    (w : world) (p : conn_params) :
  resolve (rt w) env = Some p -> accepts (srv w) p = true ->
  updateStudentEmail env id mail w =
    match drive (srv w) (SqlUpdate mail id) (students w) (seq w) with
    | (Ok res, tbl, next) => (Ok (rowcount res), after_return p tbl next w)
    | (Raise e, _, next) => (Raise e, after_raise p next w)
    end.
Proof.
  intros Hres Hacc. unfold updateStudentEmail, bind, drive.
  rewrite (get_conn_connected env w p Hres Hacc).
  run_txn.
  destruct (has_nul mail); cbn [orb]; [run_txn; reflexivity|].
  destruct (run_statement _ _ _ _) as [[[res|e] tbl] next]; run_txn; reflexivity.
Qed.

Lemma deleteStudent_run (env : environ) (id : Z) (w : world) (p : conn_params) :
  resolve (rt w) env = Some p -> accepts (srv w) p = true ->
  deleteStudent env id w =
    match run_statement (srv w) (SqlDelete id) (students w) (seq w) with
    | (Ok res, tbl, next) => (Ok (rowcount res), after_return p tbl next w)
    | (Raise e, _, next) => (Raise e, after_raise p next w)
    end.
Proof.
  intros Hres Hacc. unfold deleteStudent, bind.
  rewrite (get_conn_connected env w p Hres Hacc).
  run_txn.
  destruct (run_statement _ _ _ _) as [[[res|e] tbl] next]; run_txn; reflexivity.
Qed.

Lemma can_connect_cases (env : environ) (w : world) :
  (exists p, resolve (rt w) env = Some p ∧ accepts (srv w) p = true)
  ∨ ¬ can_connect env w.
Proof.
  destruct (resolve (rt w) env) as [p|] eqn:Hres.
  - destruct (accepts (srv w) p) eqn:Hacc; [left; by exists p|].
    right. intros (q & ? & ?). simplify_eq. congruence.
  - right. intros (q & ? & ?). congruence.
Qed.

(** Every operation is one statement in one transaction of its own: it
    returns what it makes of the statement's outcome after a commit, or it
    raises what the driver or the store raises after a rollback. *)
Lemma perform_run (env : environ) (c : call) (w : world) (p : conn_params) :
  resolve (rt w) env = Some p -> accepts (srv w) p = true ->
  perform env c w =
    match drive (srv w) (stmt_of c) (students w) (seq w) with
    | (Ok res, tbl, next) =>
        match answer_of c res (seq w) with
        | Ok a => (Ok a, after_return p tbl next w)
        | Raise e => (Raise e, after_raise p next w)
        end
    | (Raise e, _, next) => (Raise e, after_raise p next w)
    end.
Proof.
  intros Hres Hacc. destruct c as [|f l e d|id mail|id]; unfold perform, bind.
  - rewrite (getAllStudents_run env w p Hres Hacc).
    cbn [stmt_of answer_of]. unfold drive. cbn [stmt_texts existsb].
    rewrite select_run. cbn [fetched].
    by destruct (mapR fetch_row _).
  - rewrite (addStudent_run env f l e d w p Hres Hacc). cbn [stmt_of answer_of].
    by destruct (drive _ _ _ _) as [[[res|err] tbl] next].
  - rewrite (updateStudentEmail_run env id mail w p Hres Hacc).
    cbn [stmt_of answer_of].
    by destruct (drive _ _ _ _) as [[[res|err] tbl] next].
  - rewrite (deleteStudent_run env id w p Hres Hacc). cbn [stmt_of answer_of].
    unfold drive. cbn [stmt_texts existsb].
    by destruct (run_statement _ _ _ _) as [[[res|err] tbl] next].
Qed.

(** Without a connection an operation raises and touches nothing but the log
    of attempts. *)
Lemma perform_refused (env : environ) (c : call) (w : world) :
  ¬ can_connect env w ->
  exists e l, perform env c w = (Raise e, set_attempts (attempts w ++ l) w)
              ∧ (length l <= 1)%nat.
Proof.
  intros Hno. destruct (get_conn_refused env w Hno) as (e & l & Hget & Hl).
  exists e, l. split; [|done].
  destruct c; unfold perform, getAllStudents, addStudent, updateStudentEmail,
    deleteStudent; by repeat apply bind_raise.
Qed.

(** ** Driver: fetching dates *)

Lemma fetch_student_row (r : student) :
  fetch_row (student_row r)
  = match enrollment_date r with
    | Some d =>
        if bool_decide (1 <= year d <= 9999) then Ok (student_row r)
        else Raise (ValueError ("year " +:+ pretty (year d) +:+ " is out of range"))
    | None => Ok (student_row r)
    end.
Proof.
  unfold fetch_row, student_row. cbn [mapR typecast fst snd date_value].
  destruct (enrollment_date r) as [d|]; cbn [date_value typecast]; [|done].
  by case_bool_decide.
Qed.

(** The rows of a table whose dates all have a [datetime.date] are fetched
    as they are. *)
Lemma fetch_rows_ok (recs : list student) :
  fetchable recs -> mapR fetch_row (student_row <$> recs) = Ok (student_row <$> recs).
Proof.
  induction 1 as [|r recs Hr _ IH]; [done|].
  rewrite fmap_cons. cbn [mapR]. rewrite fetch_student_row, IH.
  unfold in_range in Hr. destruct (enrollment_date r); [|done].
  by rewrite bool_decide_eq_true_2.
Qed.

(** Fetching changes no row: it returns them all as they are, or raises
    [ValueError]. *)
Lemma fetch_rows_inv (recs : list student) :
  (fetchable recs ∧ mapR fetch_row (student_row <$> recs) = Ok (student_row <$> recs))
  ∨ (¬ fetchable recs
     ∧ exists msg, mapR fetch_row (student_row <$> recs) = Raise (ValueError msg)).
Proof.
  induction recs as [|r recs IH]; [left; by split; [constructor|]|].
  rewrite fmap_cons. cbn [mapR]. rewrite fetch_student_row.
  destruct (decide (in_range r)) as [Hr|Hr].
  - assert (Hrow : match enrollment_date r with
                   | Some d =>
                       if bool_decide (1 <= year d <= 9999) then Ok (student_row r)
                       else Raise (ValueError ("year " +:+ pretty (year d)
                                               +:+ " is out of range"))
                   | None => Ok (student_row r)
                   end = Ok (student_row r)).
    { unfold in_range in Hr. destruct (enrollment_date r); [|done].
      by rewrite bool_decide_eq_true_2. }
    rewrite Hrow. destruct IH as [[Hf ->]|[Hf (msg & ->)]].
    + left. split; [by constructor | done].
    + right. split; [|by exists msg]. intros Hall. apply Hf.
      by apply Forall_cons in Hall as [_ ?].
  - right. split; [intros Hall; by apply Forall_cons in Hall as [? _]|].
    unfold in_range in Hr. destruct (enrollment_date r) as [d|]; [|done].
    rewrite bool_decide_eq_false_2 by done. by eexists.
Qed.

(** ** Store: what the statements do to the table *)

Lemma filter_id_absent (id : Z) (tbl : list student) :
  id ∉ student_id <$> tbl -> filter (fun r => student_id r = id) tbl = [].
Proof.
  induction tbl as [|r tbl IH]; [done|]. rewrite fmap_cons, not_elem_of_cons.
  intros [Hne Hid]. rewrite filter_cons_False by congruence. auto.
Qed.

Lemma filter_others_absent (id : Z) (tbl : list student) :
  id ∉ student_id <$> tbl -> filter (fun r => student_id r ≠ id) tbl = tbl.
Proof.
  induction tbl as [|r tbl IH]; [done|]. rewrite fmap_cons, not_elem_of_cons.
  intros [Hne Hid]. rewrite filter_cons_True by congruence. f_equal; auto.
Qed.

Lemma set_email_absent (id : Z) (mail : string) (tbl : list student) :
  id ∉ student_id <$> tbl ->
  (fun r => if has_id id r then set_email mail r else r) <$> tbl = tbl.
Proof.
  induction tbl as [|r tbl IH]; [done|]. rewrite !fmap_cons, not_elem_of_cons.
  intros [Hne Hid]. unfold has_id at 1. rewrite bool_decide_eq_false_2 by congruence.
  f_equal; auto.
Qed.

Lemma exists_id_iff (id : Z) (tbl : list student) :
  Exists (fun r => student_id r = id) tbl <-> id ∈ student_id <$> tbl.
Proof.
  rewrite Exists_exists, list_elem_of_fmap. split.
  - intros (r & Hr & <-). by exists r.
  - intros (r & -> & Hr). by exists r.
Qed.

Lemma delete_run_absent (s : server) (id : Z) (tbl : list student) (n : Z) :
  id ∉ student_id <$> tbl ->
  run_statement s (SqlDelete id) tbl n = (Ok (Outcome 0 []), tbl, n).
Proof.
  intros Hid. unfold run_statement.
  by rewrite filter_id_absent, filter_others_absent.
Qed.

Lemma update_run_absent (s : server) (id : Z) (mail : string)
    (tbl : list student) (n : Z) :
  id ∉ student_id <$> tbl ->
  run_statement s (SqlUpdate mail id) tbl n = (Ok (Outcome 0 []), tbl, n).
Proof.
  intros Hid. unfold run_statement.
  rewrite (bool_decide_eq_false_2 (Exists _ tbl)) by (rewrite exists_id_iff; tauto).
  cbn [andb].
  rewrite bool_decide_eq_false_2 by (rewrite exists_id_iff; tauto).
  by rewrite filter_id_absent, set_email_absent.
Qed.

(** With a primary key, one row at most carries a given id. *)
Lemma filter_id_unique (r : student) (tbl : list student) :
  NoDup (student_id <$> tbl) -> r ∈ tbl ->
  filter (fun x => student_id x = student_id r) tbl = [r].
Proof.
  induction tbl as [|x tbl IH]; intros Hnd Hin; [by apply elem_of_nil in Hin|].
  rewrite fmap_cons in Hnd. apply NoDup_cons in Hnd as [Hx Hnd].
  apply elem_of_cons in Hin as [->|Hin].
  - rewrite filter_cons_True by done. by rewrite filter_id_absent.
  - rewrite filter_cons_False; [by apply IH|].
    intros Heq. apply Hx. rewrite Heq. by apply list_elem_of_fmap_2.
Qed.

Lemma update_run_hit (s : server) (r : student) (mail : string)
    (tbl : list student) (n : Z) :
  NoDup (student_id <$> tbl) -> r ∈ tbl ->
  text_ok s "email" mail = true ->
  (forall x, x ∈ tbl -> email x = mail -> student_id x = student_id r) ->
  run_statement s (SqlUpdate mail (student_id r)) tbl n =
    (Ok (Outcome 1 []),
     (fun x => if has_id (student_id r) x then set_email mail x else x) <$> tbl, n).
Proof.
  intros Hnd Hin Hok Hfree. unfold run_statement.
  rewrite Hok, andb_false_r. rewrite bool_decide_eq_false_2.
  - by rewrite filter_id_unique.
  - intros [_ Hclash]. apply Exists_exists in Hclash as (x & Hx & Hne & Hmail).
    by apply Hne, Hfree.
Qed.

Lemma update_run_clash (s : server) (r x : student) (mail : string)
    (tbl : list student) (n : Z) :
  r ∈ tbl -> x ∈ tbl -> student_id x ≠ student_id r -> email x = mail ->
  exists msg,
    run_statement s (SqlUpdate mail (student_id r)) tbl n =
      (Raise (IntegrityError msg), tbl, n).
Proof.
  intros Hr Hx Hne Hmail. unfold run_statement.
  destruct (_ && _); [by eexists|].
  rewrite bool_decide_eq_true_2; [by eexists|].
  split; apply Exists_exists; [by exists r | by exists x].
Qed.

Lemma set_email_ids (id : Z) (mail : string) (tbl : list student) :
  student_id <$> ((fun r => if has_id id r then set_email mail r else r) <$> tbl)
  = student_id <$> tbl.
Proof.
  rewrite <- list_fmap_compose. apply list_fmap_ext. intros i r _. simpl.
  by destruct (has_id id r).
Qed.

(** No statement breaks the primary key. *)
Lemma run_statement_pk (s : server) (st : statement) (tbl tbl' : list student)
    (n n' : Z) (r : result outcome) :
  NoDup (student_id <$> tbl) ->
  run_statement s st tbl n = (r, tbl', n') ->
  NoDup (student_id <$> tbl').
Proof.
  intros Hnd. destruct st as [|f l e d|mail id|id].
  - rewrite select_run. by intros [= _ <- _].
  - destruct r as [res|err].
    + intros Hrun. apply insert_ok in Hrun
        as (f' & l' & e' & dt & _ & _ & _ & _ & Hid & _ & _ & -> & _).
      rewrite fmap_app. apply NoDup_app. split; [done|]. split.
      * intros x Hx. simpl. rewrite list_elem_of_singleton. by intros ->.
      * apply NoDup_singleton.
    + unfold run_statement. destruct (date_param s d); [|by intros [= _ <- _]].
      destruct f, l, e; try (by intros [= _ <- _]).
      destruct (negb _); [by intros [= _ <- _]|].
      repeat case_bool_decide; by intros [= _ <- _].
  - unfold run_statement. destruct (_ && _); [by intros [= _ <- _]|].
    case_bool_decide; intros [= _ <- _]; [done|].
    by rewrite set_email_ids.
  - unfold run_statement. intros [= _ <- _].
    eapply sublist_NoDup; [exact Hnd|]. apply fmap_sublist, sublist_filter.
Qed.

Lemma drive_pk (s : server) (st : statement) (tbl tbl' : list student)
    (n n' : Z) (r : result outcome) :
  NoDup (student_id <$> tbl) ->
  drive s st tbl n = (r, tbl', n') ->
  NoDup (student_id <$> tbl').
Proof.
  intros Hnd. unfold drive. destruct (existsb _ _).
  - by intros [= _ <- _].
  - by apply run_statement_pk.
Qed.

(** What every operation leaves of the world: the builtins and the server
    as they were, nothing on the error stream, at most one attempt on the
    store; and the table as it was when the operation raised. *)
Lemma perform_frame (env : environ) (c : call) (w : world) :
  rt (snd (perform env c w)) = rt w
  ∧ srv (snd (perform env c w)) = srv w
  ∧ stdout (snd (perform env c w)) = stdout w
  ∧ at_most 1 w (snd (perform env c w))
  ∧ (pk_ok w -> pk_ok (snd (perform env c w)))
  ∧ (forall e, fst (perform env c w) = Raise e ->
       students (snd (perform env c w)) = students w).
Proof.
  destruct (can_connect_cases env w) as [(p & Hres & Hacc)|Hno].
  - rewrite (perform_run env c w p Hres Hacc).
    destruct (drive _ _ _ _) as [[[res|err] tbl] next] eqn:Hrun.
    + destruct (answer_of c res (seq w)) as [a|e]; cbn [fst snd];
        (split; [done|]; split; [done|]; split; [done|]; split;
         [split; [done|]; by exists [p]|]; split; [|done]).
      * intros Hpk. by apply drive_pk in Hrun.
      * done.
    + cbn [fst snd]. split; [done|]. split; [done|]. split; [done|].
      split; [split; [done|]; by exists [p]|]. by split.
  - destruct (perform_refused env c w Hno) as (e & l & -> & Hl).
    cbn [fst snd]. split; [done|]. split; [done|]. split; [done|].
    split; [split; [done|]; by exists l|]. by split.
Qed.

Lemma run_history_inv (env : environ) (h : list call) (w : world) :
  pk_ok w ->
  pk_ok (run_history env h w)
  ∧ srv (run_history env h w) = srv w
  ∧ rt (run_history env h w) = rt w.
Proof.
  revert w. induction h as [|c h IH]; intros w Hpk; [done|].
  destruct (perform_frame env c w) as (Hrt & Hsrv & _ & _ & Hpk' & _).
  destruct (IH (snd (perform env c w)) (Hpk' Hpk)) as (H1 & H2 & H3).
  split; [exact H1|]. simpl. rewrite H2, H3. by split.
Qed.

(** Sorting by a key without repetitions sorts strictly. *)
Lemma sorted_strict (l : list student) :
  NoDup (student_id <$> l) -> StronglySorted by_id l ->
  StronglySorted (fun a b => student_id a < student_id b) l.
Proof.
  induction 2 as [|x l Hs IH Hall]; [constructor|].
  rewrite fmap_cons in H. apply NoDup_cons in H as [Hx Hnd].
  constructor; [by apply IH|].
  apply Forall_forall. intros y Hy.
  rewrite Forall_forall in Hall. specialize (Hall y Hy). unfold by_id in Hall.
  assert (student_id x ≠ student_id y).
  { intros Heq. apply Hx. rewrite Heq. by apply list_elem_of_fmap_2. }
  lia.
Qed.

(** Closed decidable facts and memberships in explicit lists. *)
Ltac by_decide := apply (bool_decide_unpack _); exact I.
Ltac by_member := repeat first [apply list_elem_of_here | apply list_elem_of_further].

Lemma can_connect_env_ok (w : world) :
  rt w = rt0 -> srv w = srv0 -> can_connect env_ok w.
Proof.
  intros Hr Hs. eexists. rewrite Hr, Hs. split; [vm_compute; reflexivity|].
  reflexivity.
Qed.



(** ** The data access operations *)

(** C7.  Deleting an id that no record carries leaves the table as it was,
    and when the operation gets its connection it returns the count 0. *)
Theorem deleteStudent_absent_id (env : environ) (id : Z) (w : world) :
  id ∉ student_id <$> students w ->
  students (snd (deleteStudent env id w)) = students w
  ∧ (can_connect env w -> fst (deleteStudent env id w) = Ok 0).
Proof.
  intros Hid. destruct (can_connect_cases env w) as [(p & Hres & Hacc)|Hno].
  - rewrite (deleteStudent_run env id w p Hres Hacc).
    by rewrite delete_run_absent.
  - destruct (get_conn_refused env w Hno) as (e & l & Hget & _).
    unfold deleteStudent. rewrite (bind_raise _ _ _ _ _ Hget). by split.
Qed.

(** C4, as the code has it.  An operation that gets its connection leaves
    the earlier connections untouched and its own with no open cursor and no
    transaction in progress.  When the operation returns, that connection is
    closed as well: no code closes it, the interpreter finalises it when the
    function's frame goes.  When the operation raises, whether from the
    statement or from fetching, the connection is left open: its context
    manager only rolls the transaction back, no operation calls [close], and
    the frame lives on in the exception that propagates. *)
Theorem operation_closes_on_return_only (env : environ) (c : call) (w : world) :
  can_connect env w ->
  (forall a w', perform env c w = (Ok a, w') -> conns w' = conns w ++ [closed_conn])
  ∧ (forall e w', perform env c w = (Raise e, w') -> conns w' = conns w ++ [idle_conn]).
Proof.
  intros (p & Hres & Hacc). rewrite (perform_run env c w p Hres Hacc).
  destruct (drive _ _ _ _) as [[[res|err] tbl] next].
  - destruct (answer_of c res (seq w)) as [a|e];
      split; intros x w' [= <- <-] || intros x w' [=]; done.
  - split; intros x w' [= <- <-] || intros x w' [=]; done.
Qed.


(** C2, as the code has it.  From any table that satisfies its primary key,
    after any history of calls of the four operations: whenever list-all
    returns, it returns every record of the table, each once, in strictly
    ascending order of [student_id]; and it does return when it gets its
    connection and every date of the table lies in the years 1 to 9999, the
    dates the driver can hand to the program. *)
Theorem getAllStudents_sorted (env envh : environ) (h : list call) (w : world) :
  pk_ok w ->
  (forall rows, fst (getAllStudents env (run_history envh h w)) = Ok rows ->
     exists recs,
       rows = student_row <$> recs
       ∧ recs ≡ₚ students (run_history envh h w)
       ∧ StronglySorted (fun a b => student_id a < student_id b) recs)
  ∧ (can_connect env w -> fetchable (students (run_history envh h w)) ->
     exists rows, fst (getAllStudents env (run_history envh h w)) = Ok rows).
Proof.
  intros Hpk. destruct (run_history_inv envh h w Hpk) as (Hpk' & Hsrv & Hrt).
  assert (Hsorted : forall recs, recs = merge_sort by_id (students (run_history envh h w)) ->
            recs ≡ₚ students (run_history envh h w)
            ∧ StronglySorted (fun a b => student_id a < student_id b) recs).
  { intros recs ->. split; [apply merge_sort_Permutation|]. apply sorted_strict.
    - unfold pk_ok in Hpk'. by rewrite merge_sort_Permutation.
    - apply StronglySorted_merge_sort; apply _. }
  destruct (can_connect_cases env (run_history envh h w)) as [(p & Hres & Hacc)|Hno].
  - rewrite (getAllStudents_run env _ p Hres Hacc).
    destruct (fetch_rows_inv (merge_sort by_id (students (run_history envh h w))))
      as [[Hf ->]|[Hf (msg & ->)]]; cbn [fst].
    + split; [|by eexists]. intros rows [= <-]. eexists. split; [done|]. by apply Hsorted.
    + split; [done|]. intros _ Hall. exfalso. apply Hf.
      unfold fetchable. by rewrite merge_sort_Permutation.
  - destruct (get_conn_refused env _ Hno) as (e & l & Hget & _).
    unfold getAllStudents. rewrite (bind_raise _ _ _ _ _ Hget). cbn [fst].
    split; [done|]. intros (p & Hres & Hacc) _. exfalso. apply Hno.
    exists p. by rewrite Hrt, Hsrv.
Qed.

(** C1, as the code has it.  On a table that satisfies its primary key and
    takes every non-empty text, with a connection, and for a non-empty email
    without a NUL character: update-email returns 0 and changes nothing when
    no record has the id; when a record has it and no other record holds the
    new email it returns 1, and the list-all that follows, on a table whose
    dates lie in the years 1 to 9999, returns that record with the new email
    and its other fields as before, next to every other record unchanged;
    when another record holds the new email the unique constraint makes the
    operation raise and the table stays. *)
Theorem updateStudentEmail_spec (env : environ) (id : Z) (mail : string)
    (w : world) :
  pk_ok w -> can_connect env w -> spec_table (srv w) ->
  mail ≠ "" -> has_nul mail = false ->
  (id ∉ student_id <$> students w ->
     fst (updateStudentEmail env id mail w) = Ok 0
     ∧ students (snd (updateStudentEmail env id mail w)) = students w)
  ∧ (forall r, r ∈ students w -> student_id r = id ->
       ((forall x, x ∈ students w -> email x = mail -> student_id x = id) ->
          fst (updateStudentEmail env id mail w) = Ok 1
          ∧ (fetchable (students w) ->
             exists recs,
               fst (getAllStudents env (snd (updateStudentEmail env id mail w)))
                 = Ok (student_row <$> recs)
               ∧ set_email mail r ∈ recs
               ∧ (forall x, x ∈ students w -> student_id x ≠ id -> x ∈ recs)
               ∧ length recs = length (students w)))
       ∧ ((exists x, x ∈ students w ∧ student_id x ≠ id ∧ email x = mail) ->
            exists msg,
              fst (updateStudentEmail env id mail w) = Raise (IntegrityError msg)
              ∧ students (snd (updateStudentEmail env id mail w)) = students w)).
Proof.
  intros Hpk (p & Hres & Hacc) [Htext _] Hne Hnul.
  assert (Hok : text_ok (srv w) "email" mail = true).
  { rewrite Htext by (unfold required_columns; by_member).
    by rewrite bool_decide_eq_false_2. }
  rewrite (updateStudentEmail_run env id mail w p Hres Hacc).
  unfold drive. cbn [stmt_texts existsb]. rewrite Hnul. cbn [orb]. split.
  - intros Hid. by rewrite update_run_absent.
  - intros r Hr <-. split.
    + intros Hfree. rewrite (update_run_hit _ r mail _ _ Hpk Hr Hok Hfree).
      cbn [fst snd rowcount]. split; [done|]. intros Hall.
      rewrite (getAllStudents_run env (after_return p _ _ w) p Hres Hacc).
      cbn [students after_return ended].
      rewrite fetch_rows_ok.
      * cbn [fst]. eexists. split; [reflexivity|].
        repeat split.
        -- rewrite merge_sort_Permutation. apply list_elem_of_fmap.
           exists r. split; [|done]. unfold has_id. by rewrite bool_decide_eq_true_2.
        -- intros x Hx Hnx. rewrite merge_sort_Permutation. apply list_elem_of_fmap.
           exists x. split; [|done]. unfold has_id. by rewrite bool_decide_eq_false_2.
        -- by rewrite merge_sort_Permutation, length_fmap.
      * unfold fetchable. rewrite merge_sort_Permutation.
        apply Forall_fmap. eapply Forall_impl; [exact Hall|].
        intros x Hx. simpl. by destruct (has_id _ x).
    + intros (x & Hx & Hnx & Hmail).
      destruct (update_run_clash (srv w) r x mail (students w) (seq w) Hr Hx Hnx Hmail)
        as (msg & ->).
      by exists msg.
Qed.

(** ** Dispatcher *)

Lemma snd_bind_ret {A B} (m : M A) (f : A -> B) (w : world) :
  snd (bind m (fun a => ret (f a)) w) = snd (m w).
Proof. unfold bind, ret. by destruct (m w) as [[a|e] w1]. Qed.

(** An operation that returned made exactly one attempt on the store. *)
Lemma perform_ok_attempt (env : environ) (c : call) (w w1 : world) (a : answer) :
  perform env c w = (Ok a, w1) ->
  exists p, attempts w1 = attempts w ++ [p].
Proof.
  destruct (can_connect_cases env w) as [(p & Hres & Hacc)|Hno].
  - rewrite (perform_run env c w p Hres Hacc).
    destruct (drive _ _ _ _) as [[[res|err] tbl] next]; [|done].
    destruct (answer_of c res (seq w)); [|done].
    intros [= _ <-]. by exists p.
  - destruct (perform_refused env c w Hno) as (e & l & -> & _). done.
Qed.

(** What [dispatch] does with its first operation: when that raises,
    nothing else runs; when it returns, the status line is printed and the
    table is listed and drawn. *)
Lemma dispatch_first_raises (env : environ) (cmd : command) (w w1 : world)
    (e : exn) :
  perform env (call_of cmd) w = (Raise e, w1) ->
  dispatch env cmd w = (Raise e, w1).
Proof.
  destruct cmd as [|f l m d|id mail|id]; unfold perform, call_of, dispatch, bind, ret.
  - destruct (getAllStudents env w) as [[a|e'] w']; [intros [=] | by intros [= <- <-]].
  - destruct (addStudent env _ _ _ _ w) as [[a|e'] w']; [intros [=] | by intros [= <- <-]].
  - destruct (updateStudentEmail env _ _ w) as [[a|e'] w']; [intros [=] | by intros [= <- <-]].
  - destruct (deleteStudent env _ w) as [[a|e'] w']; [intros [=] | by intros [= <- <-]].
Qed.

Lemma dispatch_first_returns (env : environ) (cmd : command) (w w1 : world)
    (a : answer) (s : string) :
  perform env (call_of cmd) w = (Ok a, w1) -> status_line cmd a = Some s ->
  dispatch env cmd w
  = bind (getAllStudents env) print_table (set_stdout (stdout w1 ++ [s]) w1).
Proof.
  destruct cmd as [|f l m d|id mail|id]; unfold perform, call_of, dispatch, bind, ret.
  - destruct (getAllStudents env w) as [[x|e'] w']; intros [= <- <-]. intros [=].
  - destruct (addStudent env _ _ _ _ w) as [[x|e'] w']; intros [= <- <-].
    by intros [= <-].
  - destruct (updateStudentEmail env _ _ w) as [[x|e'] w']; intros [= <- <-].
    by intros [= <-].
  - destruct (deleteStudent env _ w) as [[x|e'] w']; intros [= <- <-].
    by intros [= <-].
Qed.

(** The handler of [main]. *)
Lemma main_handler (env : environ) (cmd : command) (w w' : world) (e : exn) :
  dispatch env cmd w = (Raise e, w') ->
  main env cmd w = (1, set_stderr (stderr w' ++ ["ERROR: " +:+ exn_str (rt w') e]) w').
Proof. intros Hd. unfold main. by rewrite Hd. Qed.

(** C9.  When the operation a command starts with raises, be it from
    configuration resolution, from the connection or from the statement,
    [main] catches the exception, writes the one line [ERROR: ] followed by
    the exception's text to the error stream, to which nothing else was
    written, and exits with status 1; the world it leaves is otherwise the
    one the failed operation left, after its single run: nothing is run
    after the failure and nothing is tried again, the one attempt on the
    store in that world, if any, being that of the operation.  When the
    operation returns and the list-all that follows the status line raises,
    the same holds of that list-all: the world is the one its single run
    left, with one attempt of the operation that returned and at most one of
    the list-all. *)
Theorem main_reports_error (env : environ) (cmd : command) (w : world) :
  (forall e w1,
     perform env (call_of cmd) w = (Raise e, w1) ->
     main env cmd w
       = (1, set_stderr (stderr w ++ ["ERROR: " +:+ exn_str (rt w) e]) w1)
     ∧ exists l, attempts w1 = attempts w ++ l ∧ (length l <= 1)%nat)
  ∧ (forall a s w1 e w2,
       perform env (call_of cmd) w = (Ok a, w1) ->
       status_line cmd a = Some s ->
       getAllStudents env (set_stdout (stdout w1 ++ [s]) w1) = (Raise e, w2) ->
       main env cmd w
         = (1, set_stderr (stderr w ++ ["ERROR: " +:+ exn_str (rt w) e]) w2)
       ∧ exists p l, attempts w1 = attempts w ++ [p]
                     ∧ attempts w2 = attempts w1 ++ l ∧ (length l <= 1)%nat).
Proof.
  split.
  - intros e w1 Hop.
    destruct (perform_frame env (call_of cmd) w) as (Hrt & _ & _ & [Herr Hatt] & _).
    rewrite Hop in Hrt, Herr, Hatt. cbn [snd] in Hrt, Herr, Hatt.
    split; [|exact Hatt].
    rewrite (main_handler env cmd w w1 e (dispatch_first_raises _ _ _ _ _ Hop)).
    by rewrite Hrt, Herr.
  - intros a s w1 e w2 Hop Hs Hlist.
    destruct (perform_frame env (call_of cmd) w) as (Hrt & _ & _ & [Herr _] & _).
    rewrite Hop in Hrt, Herr. cbn [snd] in Hrt, Herr.
    destruct (perform_frame env CallList (set_stdout (stdout w1 ++ [s]) w1))
      as (Hrt2 & _ & _ & [Herr2 Hatt2] & _).
    unfold perform in Hrt2, Herr2, Hatt2.
    rewrite snd_bind_ret, Hlist in Hrt2, Herr2, Hatt2.
    cbn [snd rt stderr attempts set_stdout] in Hrt2, Herr2, Hatt2.
    destruct (perform_ok_attempt env _ w w1 a Hop) as (p & Hp).
    split; [|exists p; destruct Hatt2 as (l & ? & ?); by exists l].
    assert (Hd : dispatch env cmd w = (Raise e, w2)).
    { rewrite (dispatch_first_returns env cmd w w1 a s Hop Hs).
      unfold bind. by rewrite Hlist. }
    rewrite (main_handler env cmd w w2 e Hd).
    by rewrite Hrt2, Herr2, Hrt, Herr.
Qed.

(** A configuration error reaches the user through that path, whatever the
    command. *)
Lemma main_config_error (env : environ) (cmd : command) (w : world) :
  missing_vars env ≠ [] ->
  main env cmd w =
    (1, set_stderr (stderr w ++ ["ERROR: " +:+ missing_msg (missing_vars env)]) w).
Proof.
  intros Hmiss.
  assert (Hd : dispatch env cmd w
               = (Raise (RuntimeError (missing_msg (missing_vars env))), w)).
  { pose proof (get_conn_missing env w Hmiss) as Hget.
    destruct cmd; unfold dispatch, getAllStudents, addStudent,
      updateStudentEmail, deleteStudent; by repeat apply bind_raise. }
  unfold main. by rewrite Hd.
Qed.

(** ** Renderer: widths, borders and cells *)

Lemma py_len_append (a b : string) : py_len (a +:+ b) = (py_len a + py_len b)%nat.
Proof.
  induction a as [|c a IH]; [by rewrite append_nil_l|].
  rewrite append_cons. cbn [py_len]. rewrite IH. by destruct (is_continuation c).
Qed.

Lemma py_len_str_mul (c : ascii) (n : nat) :
  is_continuation c = false -> py_len (str_mul (String c "") n) = n.
Proof.
  intros Hc. induction n as [|n IH]; [done|].
  cbn [str_mul]. rewrite py_len_append, IH. cbn [py_len]. by rewrite Hc.
Qed.

Lemma all_char_str_mul (c : ascii) (n : nat) : all_char c (str_mul (String c "") n).
Proof.
  induction n as [|n IH]; [done|].
  cbn [str_mul]. rewrite append_cons, append_nil_l. by split.
Qed.

Lemma py_len_ljust (s : string) (n : nat) :
  (py_len s <= n)%nat -> py_len (ljust s n) = n.
Proof.
  intros Hle. unfold ljust. rewrite py_len_append, py_len_str_mul by done. lia.
Qed.

Lemma cell_len_value_width (v : value) : cell_len v = value_width v.
Proof. by destruct v. Qed.

Lemma getitem_field (r : row) (h : string) :
  h ∈ keys r -> getitem r h = Ok (field r h).
Proof.
  unfold field. induction r as [|[k v] r IH]; intros Hin.
  - by apply elem_of_nil in Hin.
  - simpl. destruct (decide (k = h)) as [->|Hne]; [done|].
    unfold keys in Hin. rewrite fmap_cons in Hin.
    apply elem_of_cons in Hin as [Heq|Hin]; [by simpl in Heq|]. by apply IH.
Qed.

Lemma init_widths_lookup (hs : list string) (h : string) :
  h ∈ hs -> init_widths hs !!! h = py_len h.
Proof.
  intros Hin. unfold init_widths.
  induction hs as [|a hs IH]; [by apply elem_of_nil in Hin|].
  rewrite fmap_cons, list_to_map_cons.
  destruct (decide (a = h)) as [->|Hne]; [by rewrite lookup_total_insert_eq|].
  rewrite lookup_total_insert_ne by done.
  apply elem_of_cons in Hin as [->|Hin]; [done | by apply IH].
Qed.

(** One pass over the headers for one row. *)
Lemma widen_row (r : row) (hs : list string) (ws : gmap string nat) :
  (forall h, h ∈ hs -> h ∈ keys r) ->
  exists ws',
    foldR (widen r) hs ws = Ok ws'
    ∧ forall h, ws' !!! h =
        if decide (h ∈ hs) then Nat.max (ws !!! h) (value_width (field r h))
        else ws !!! h.
Proof.
  revert ws. induction hs as [|a hs IH]; intros ws Hkeys.
  - exists ws. split; [done|]. intros h. by rewrite decide_False by apply not_elem_of_nil.
  - simpl. unfold widen at 1.
    rewrite (getitem_field r a) by (apply Hkeys, elem_of_cons; by left).
    destruct (IH (<[a:=Nat.max (ws !!! a) (cell_len (field r a))]> ws))
      as (ws' & Hfold & Hws').
    { intros h Hh. apply Hkeys, elem_of_cons. by right. }
    exists ws'. split; [done|]. intros h. rewrite Hws', cell_len_value_width.
    destruct (decide (a = h)) as [->|Hne].
    + rewrite lookup_total_insert_eq.
      rewrite (decide_True (P := h ∈ h :: hs)) by (apply elem_of_cons; by left).
      destruct (decide (h ∈ hs)); lia.
    + rewrite lookup_total_insert_ne by done.
      destruct (decide (h ∈ hs)) as [Hin|Hnin].
      * by rewrite decide_True by (apply elem_of_cons; by right).
      * rewrite decide_False; [done|]. rewrite elem_of_cons. by intros [?|?].
Qed.

(** All the rows. *)
Lemma widen_rows (rows : list row) (hs : list string) (ws : gmap string nat) :
  Forall (fun r => forall h, h ∈ hs -> h ∈ keys r) rows ->
  exists ws',
    foldR (fun ws r => foldR (widen r) hs ws) rows ws = Ok ws'
    ∧ forall h, h ∈ hs ->
        ws' !!! h
        = Nat.max (ws !!! h) (max_list ((fun r => value_width (field r h)) <$> rows)).
Proof.
  revert ws. induction rows as [|r rows IH]; intros ws Hkeys.
  - exists ws. split; [done|]. intros h _. simpl. by rewrite Nat.max_0_r.
  - apply Forall_cons in Hkeys as [Hr Hrows]. simpl.
    destruct (widen_row r hs ws Hr) as (ws1 & -> & Hws1).
    destruct (IH ws1 Hrows) as (ws' & Hfold & Hws').
    exists ws'. split; [done|]. intros h Hh.
    rewrite (Hws' h Hh), Hws1, decide_True by done.
    symmetry. apply Nat.max_assoc.
Qed.

Lemma compute_widths_spec (hs : list string) (rows : list row) :
  Forall (fun r => forall h, h ∈ hs -> h ∈ keys r) rows ->
  exists widths,
    compute_widths hs rows = Ok widths
    ∧ forall h, h ∈ hs -> widths !!! h = col_width rows h.
Proof.
  intros Hkeys. unfold compute_widths.
  destruct (widen_rows rows hs (init_widths hs) Hkeys) as (ws & Hfold & Hws).
  exists ws. split; [done|]. intros h Hh.
  by rewrite (Hws h Hh), init_widths_lookup.
Qed.

Lemma mapR_total {A B} (f : A -> result B) (g : A -> B) (l : list A) :
  (forall a, a ∈ l -> f a = Ok (g a)) -> mapR f l = Ok (g <$> l).
Proof.
  induction l as [|a l IH]; intros Hf; [done|]. simpl.
  rewrite Hf by (apply elem_of_cons; by left).
  rewrite IH; [done|]. intros b Hb. apply Hf, elem_of_cons. by right.
Qed.

Lemma row_line_total (widths : gmap string nat) (hs : list string) (r : row) :
  (forall h, h ∈ hs -> h ∈ keys r) ->
  row_line widths hs r = Ok (data_line widths hs r).
Proof.
  intros Hkeys. unfold row_line, data_line.
  rewrite (mapR_total _ (fun h => ljust (cell (field r h)) (widths !!! h))); [done|].
  intros h Hh. by rewrite getitem_field by by apply Hkeys.
Qed.

Lemma for_each_print (rows : list row) (body : row -> M unit)
    (g : row -> string) (w : world) :
  Forall (fun r => forall w1, body r w1 = (Ok tt, set_stdout (stdout w1 ++ [g r]) w1))
         rows ->
  for_each rows body w = (Ok tt, set_stdout (stdout w ++ (g <$> rows)) w).
Proof.
  revert w. induction rows as [|r rows IH]; intros w Hall.
  - simpl. unfold ret. rewrite app_nil_r. by destruct w.
  - apply Forall_cons in Hall as [Hr Hall]. simpl.
    unfold bind. rewrite Hr, (IH _ Hall). simpl. by rewrite <- app_assoc.
Qed.

(** What [print_table] writes for rows that have the headers' keys. *)
Lemma print_table_lines (r0 : row) (rest : list row) (widths : gmap string nat)
    (w : world) :
  compute_widths (keys r0) (r0 :: rest) = Ok widths ->
  Forall (fun r => forall h, h ∈ keys r0 -> h ∈ keys r) (r0 :: rest) ->
  print_table (r0 :: rest) w =
    (Ok tt,
     set_stdout
       (stdout w
        ++ [line widths (keys r0) "="; header_line widths (keys r0);
            line widths (keys r0) "="]
        ++ (data_line widths (keys r0) <$> r0 :: rest)
        ++ [line widths (keys r0) "="]) w).
Proof.
  intros Hw Hkeys. unfold print_table. rewrite Hw.
  unfold bind, lift, print.
  rewrite (for_each_print _ _ (data_line widths (keys r0))).
  - simpl. by rewrite <- !app_assoc.
  - eapply Forall_impl; [exact Hkeys|]. intros r Hr w1.
    by rewrite row_line_total.
Qed.

(** With the widths of the specification, the lines of the program are
    those of the specification. *)
Lemma lines_render (ws : gmap string nat) (rows : list row) (hs : list string) :
  (forall h, h ∈ hs -> ws !!! h = col_width rows h) ->
  line ws hs "=" = border rows hs
  ∧ header_line ws hs = framed ((fun h => ljust h (col_width rows h)) <$> hs)
  ∧ (forall r, data_line ws hs r
               = framed ((fun h => ljust (shown (field r h)) (col_width rows h))
                           <$> hs)).
Proof.
  intros Heq.
  assert (Hmap : forall (f g : string -> nat -> string),
            (forall h n, f h n = g h n) ->
            (fun h => f h (ws !!! h)) <$> hs = (fun h => g h (col_width rows h)) <$> hs).
  { intros f g Hfg. apply list_fmap_ext. intros i h Hi. simpl.
    rewrite Heq, Hfg; [done|]. by eapply list_elem_of_lookup_2. }
  split; [|split].
  - unfold line, border, segment.
    by rewrite (Hmap (fun _ n => str_mul "=" (n + 2)) (fun _ n => str_mul "=" (n + 2))).
  - unfold header_line, framed. by rewrite (Hmap ljust ljust).
  - intros r. unfold data_line, framed.
    rewrite (Hmap (fun h n => ljust (cell (field r h)) n)
                  (fun h n => ljust (shown (field r h)) n)); [done|].
    intros h n. by destruct (field r h).
Qed.

(** For records with the same keys, [print_table] draws the table of the
    specification. *)
Lemma print_table_render (rows : list row) (w : world) :
  (forall r0 r, head rows = Some r0 -> r ∈ rows -> shares_keys r0 r) ->
  print_table rows w = (Ok tt, set_stdout (stdout w ++ render rows) w).
Proof.
  destruct rows as [|r0 rest]; [done|]. intros Hshare.
  assert (Hkeys : Forall (fun r => forall h, h ∈ keys r0 -> h ∈ keys r) (r0 :: rest)).
  { apply Forall_forall. intros r Hr h Hh. by apply (Hshare r0 r). }
  destruct (compute_widths_spec (keys r0) (r0 :: rest) Hkeys) as (widths & Hw & Hcol).
  rewrite (print_table_lines r0 rest widths w Hw Hkeys).
  destruct (lines_render widths (r0 :: rest) (keys r0) Hcol)
    as (Hline & Hhead & Hdata).
  unfold render. cbv zeta. rewrite Hline, Hhead.
  by rewrite (list_fmap_ext _ _ (r0 :: rest) (fun _ r _ => Hdata r)).
Qed.

(** C6.  For a non-empty sequence of records with the same keys, the width
    [print_table] computes for each column is the larger of the header's
    length and the lengths of the column's values in string form over all
    rows, a null value counting 0, lengths being counted in characters as
    [len] does.  The table is printed with these widths: every border is
    made of one segment per column, of [=] only and as long as the column's
    width plus 2; every cell is exactly as wide as its column, and the cell
    of a null value is blank. *)
Theorem print_table_widths (r0 : row) (rest : list row) (w : world) :
  Forall (shares_keys r0) rest ->
  exists widths,
    compute_widths (keys r0) (r0 :: rest) = Ok widths
    ∧ (forall h, h ∈ keys r0 -> widths !!! h = col_width (r0 :: rest) h)
    ∧ print_table (r0 :: rest) w =
        (Ok tt,
         set_stdout
           (stdout w
            ++ [line widths (keys r0) "="; header_line widths (keys r0);
                line widths (keys r0) "="]
            ++ (data_line widths (keys r0) <$> r0 :: rest)
            ++ [line widths (keys r0) "="]) w)
    ∧ line widths (keys r0) "="
        = "+" +:+ String.concat "+" (segment (r0 :: rest) <$> keys r0) +:+ "+"
    ∧ (forall h, py_len (segment (r0 :: rest) h) = (col_width (r0 :: rest) h + 2)%nat
                 ∧ all_char "=" (segment (r0 :: rest) h))
    ∧ (forall r h, r ∈ r0 :: rest -> h ∈ keys r0 ->
         py_len (ljust (cell (field r h)) (widths !!! h))
           = col_width (r0 :: rest) h
         ∧ (field r h = VNone ->
              ljust (cell (field r h)) (widths !!! h)
                = str_mul " " (col_width (r0 :: rest) h))).
Proof.
  intros Hshare.
  assert (Hkeys : Forall (fun r => forall h, h ∈ keys r0 -> h ∈ keys r) (r0 :: rest)).
  { apply Forall_cons. split; [done|].
    eapply Forall_impl; [exact Hshare|]. intros r Hr h Hh. by apply Hr. }
  destruct (compute_widths_spec (keys r0) (r0 :: rest) Hkeys) as (widths & Hw & Hcol).
  exists widths. split; [done|]. split; [done|].
  split; [by apply print_table_lines|]. split; [|split].
  - unfold line. do 3 f_equal. apply list_fmap_ext. intros i h Hi.
    unfold segment. rewrite Hcol; [done|]. by eapply list_elem_of_lookup_2.
  - intros h. unfold segment. split; [by apply py_len_str_mul | apply all_char_str_mul].
  - intros r h Hr Hh. rewrite (Hcol h Hh). split.
    + apply py_len_ljust. unfold col_width.
      assert (value_width (field r h)
              <= max_list ((fun r => value_width (field r h)) <$> r0 :: rest))%nat.
      { apply max_list_elem_of_le.
        by apply (list_elem_of_fmap_2 (fun r => value_width (field r h))). }
      assert (py_len (cell (field r h)) = value_width (field r h))
        by by destruct (field r h).
      lia.
    + intros ->. unfold ljust, cell. simpl. by rewrite Nat.sub_0_r.
Qed.

(** ** The statements at concrete inputs *)

Lemma pair_eta_eq {A B} (p : A * B) (a : A) : fst p = a -> p = (a, snd p).
Proof. destruct p. simpl. by intros ->. Qed.

(** Missing all five variables: the message lists the five names. *)
Example get_conn_nothing_set :
  fst (get_conn ∅ w0)
  = Raise (RuntimeError "Missing env vars: PGHOST, PGPORT, PGUSER, PGPASSWORD, PGDATABASE. Set them in your environment or app/.env").
Proof. reflexivity. Qed.

Lemma get_conn_names_every_absent_witness :
  exists msg,
    get_conn (delete "PGPORT" (delete "PGUSER" env_ok)) w2
      = (Raise (RuntimeError msg), w2)
    ∧ attempts (snd (get_conn (delete "PGPORT" (delete "PGUSER" env_ok)) w2))
      = attempts w2
    ∧ forall v, v ∈ required_vars ->
        delete "PGPORT" (delete "PGUSER" env_ok) !! v = None -> contains v msg.
Proof.
  apply (get_conn_names_every_absent (delete "PGPORT" (delete "PGUSER" env_ok)) w2).
  exists "PGUSER". split; [by_decide | reflexivity].
Defined.

Lemma get_conn_empty_as_absent_witness :
  get_conn (<["PGPASSWORD" := ""]> env_ok) w2
    = get_conn (delete "PGPASSWORD" (<["PGPASSWORD" := ""]> env_ok)) w2
  ∧ exists msg,
      get_conn (<["PGPASSWORD" := ""]> env_ok) w2 = (Raise (RuntimeError msg), w2)
      ∧ contains "PGPASSWORD" msg.
Proof.
  apply (get_conn_empty_as_absent (<["PGPASSWORD" := ""]> env_ok) "PGPASSWORD" w2);
    [by_decide | reflexivity].
Defined.

Lemma deleteStudent_absent_id_witness :
  students (snd (deleteStudent env_ok 7 w2)) = students w2
  ∧ fst (deleteStudent env_ok 7 w2) = Ok 0.
Proof.
  destruct (deleteStudent_absent_id env_ok 7 w2) as [Hsame Hzero]; [by_decide|].
  split; [exact Hsame|]. apply Hzero. by apply can_connect_env_ok.
Defined.

(** Deleting bob returns, updating ada's email to bob's raises. *)
Lemma operation_closes_on_return_only_witness :
  conns (snd (perform env_ok (CallDelete 2) w2)) = conns w2 ++ [closed_conn]
  ∧ conns (snd (perform env_ok (CallUpdate 1 "bob@example.com") w2))
    = conns w2 ++ [idle_conn].
Proof.
  split.
  - apply (proj1 (operation_closes_on_return_only env_ok (CallDelete 2) w2
                    (can_connect_env_ok w2 eq_refl eq_refl)) (Affected 1)).
    apply pair_eta_eq. reflexivity.
  - apply (proj2 (operation_closes_on_return_only env_ok
                    (CallUpdate 1 "bob@example.com") w2
                    (can_connect_env_ok w2 eq_refl eq_refl))
             (IntegrityError "duplicate key value violates unique constraint on email")).
    apply pair_eta_eq. reflexivity.
Defined.


(** So is the thirtieth of February, and a date that is not written as
    year, month and day. *)
Example addStudent_bad_dates :
  fst (addStudent env_ok (Some "Ada") (Some "Lovelace") (Some "ada@example.com")
                  (Some "2023-02-30") w0)
    = Raise (DataError "invalid input syntax for type date")
  ∧ fst (addStudent env_ok (Some "Ada") (Some "Lovelace") (Some "ada@example.com")
                    (Some "tomorrow") w0)
    = Raise (DataError "invalid input syntax for type date")
  ∧ fst (addStudent env_ok (Some "Ada") (Some "Lovelace") (Some "ada@example.com")
                    (Some "2024-02-29") w0)
    = Ok (VInt 1).
Proof. repeat split; reflexivity. Qed.

Lemma getAllStudents_sorted_witness :
  (forall rows,
     fst (getAllStudents env_ok (run_history env_ok history0 w2)) = Ok rows ->
     exists recs,
       rows = student_row <$> recs
       ∧ recs ≡ₚ students (run_history env_ok history0 w2)
       ∧ StronglySorted (fun a b => student_id a < student_id b) recs)
  ∧ exists rows, fst (getAllStudents env_ok (run_history env_ok history0 w2)) = Ok rows.
Proof.
  destruct (getAllStudents_sorted env_ok env_ok history0 w2) as [Hret Htot];
    [by_decide|].
  split; [exact Hret|]. apply Htot; [by apply can_connect_env_ok | by_decide].
Defined.

(** What that history leaves, and what list-all returns then. *)
Example history0_listed :
  fst (getAllStudents env_ok (run_history env_ok history0 w2))
  = Ok (student_row <$>
          [Student 2 "Bob" "Byte" "bob@example.org" (Some (Date 2023 9 3));
           Student 3 "Cy" "Coder" "cy@example.com" None;
           Student 4 "Di" "Dev" "di@example.com" (Some (Date 2024 2 29))]).
Proof. reflexivity. Qed.

Lemma updateStudentEmail_spec_witness :
  fst (updateStudentEmail env_ok 1 "new.email@example.com" w2) = Ok 1
  ∧ exists recs,
      fst (getAllStudents env_ok
             (snd (updateStudentEmail env_ok 1 "new.email@example.com" w2)))
        = Ok (student_row <$> recs)
      ∧ set_email "new.email@example.com" ada ∈ recs
      ∧ (forall x, x ∈ students w2 -> student_id x ≠ 1 -> x ∈ recs)
      ∧ length recs = length (students w2).
Proof.
  destruct (updateStudentEmail_spec env_ok 1 "new.email@example.com" w2)
    as [_ Hhit];
    [by_decide | by apply can_connect_env_ok
     | split; [intros col txt _; reflexivity | intros txt Htxt; exact Htxt]
     | discriminate | reflexivity |].
  destruct (Hhit ada) as [Hfree _]; [by_member | reflexivity |].
  destruct Hfree as [Hone Hlist].
  - intros x Hx.
    apply elem_of_cons in Hx as [->|Hx]; [discriminate|].
    apply list_elem_of_singleton in Hx as ->. discriminate.
  - split; [exact Hone|]. apply Hlist. by_decide.
Defined.

(** The store refuses the statement of the first operation; and, on a table
    with a date past the year 9999, the update returns and the list-all
    after the status line raises. *)
Lemma main_reports_error_witness :
  (main env_ok (CmdUpdateEmail 1 "bob@example.com") w2
     = (1, set_stderr
             (stderr w2
              ++ ["ERROR: duplicate key value violates unique constraint on email"])
             (snd (perform env_ok (CallUpdate 1 "bob@example.com") w2)))
   ∧ exists l,
       attempts (snd (perform env_ok (CallUpdate 1 "bob@example.com") w2))
         = attempts w2 ++ l
       ∧ (length l <= 1)%nat)
  ∧ main env_ok (CmdUpdateEmail 1 "ada@example.org") w3
     = (1, set_stderr
             (stderr w3 ++ ["ERROR: year 10000 is out of range"])
             (snd (getAllStudents env_ok
                     (set_stdout
                        (stdout (snd (perform env_ok (CallUpdate 1 "ada@example.org") w3))
                         ++ ["Rows updated: 1"])
                        (snd (perform env_ok (CallUpdate 1 "ada@example.org") w3)))))).
Proof.
  split.
  - apply (proj1 (main_reports_error env_ok (CmdUpdateEmail 1 "bob@example.com") w2)
             (IntegrityError "duplicate key value violates unique constraint on email")
             (snd (perform env_ok (CallUpdate 1 "bob@example.com") w2))).
    apply pair_eta_eq. reflexivity.
  - apply (proj2 (main_reports_error env_ok (CmdUpdateEmail 1 "ada@example.org") w3)
             (Affected 1) "Rows updated: 1"
             (snd (perform env_ok (CallUpdate 1 "ada@example.org") w3))
             (ValueError "year 10000 is out of range")
             (snd (getAllStudents env_ok
                     (set_stdout
                        (stdout (snd (perform env_ok (CallUpdate 1 "ada@example.org") w3))
                         ++ ["Rows updated: 1"])
                        (snd (perform env_ok (CallUpdate 1 "ada@example.org") w3)))))).
    + apply pair_eta_eq. reflexivity.
    + reflexivity.
    + apply pair_eta_eq. reflexivity.
Defined.

Lemma print_table_widths_witness :
  exists widths,
    compute_widths (keys (student_row ada)) [student_row ada; student_row bob]
      = Ok widths
    ∧ (forall h, h ∈ keys (student_row ada) ->
         widths !!! h = col_width [student_row ada; student_row bob] h)
    ∧ print_table [student_row ada; student_row bob] w0 =
        (Ok tt,
         set_stdout
           (stdout w0
            ++ [line widths (keys (student_row ada)) "=";
                header_line widths (keys (student_row ada));
                line widths (keys (student_row ada)) "="]
            ++ (data_line widths (keys (student_row ada))
                  <$> [student_row ada; student_row bob])
            ++ [line widths (keys (student_row ada)) "="]) w0)
    ∧ line widths (keys (student_row ada)) "="
        = "+" +:+ String.concat "+"
                    (segment [student_row ada; student_row bob]
                       <$> keys (student_row ada)) +:+ "+"
    ∧ (forall h,
         py_len (segment [student_row ada; student_row bob] h)
           = (col_width [student_row ada; student_row bob] h + 2)%nat
         ∧ all_char "=" (segment [student_row ada; student_row bob] h))
    ∧ (forall r h, r ∈ [student_row ada; student_row bob] ->
         h ∈ keys (student_row ada) ->
         py_len (ljust (cell (field r h)) (widths !!! h))
           = col_width [student_row ada; student_row bob] h
         ∧ (field r h = VNone ->
              ljust (cell (field r h)) (widths !!! h)
                = str_mul " " (col_width [student_row ada; student_row bob] h))).
Proof.
  apply (print_table_widths (student_row ada) [student_row bob] w0).
  apply Forall_cons. split; [|apply Forall_nil_2]. intros h. reflexivity.
Defined.

(** Lengths are counted in characters, and a year is written with four
    digits. *)
Example print_table_accented :
  stdout (snd (print_table
                 [[("first_name", VStr "Émilie");
                   ("enrollment_date", VDate (Date 987 6 5))]] w0))
  = ["+============+=================+";
     "| first_name | enrollment_date |";
     "+============+=================+";
     "| Émilie     | 0987-06-05      |";
     "+============+=================+"].
Proof. reflexivity. Qed.

(** ** Where the code departs from the specification *)

(** Against C1.  The record with id 1 exists and the new email is not
    empty, yet the operation does not return 1: another record holds that
    email and the store's unique constraint makes the statement raise.  No
    record has the id 7, yet the operation does not return 0 for an email
    with a NUL character: the driver refuses to bind it.  And on a table
    that holds a date past the year 9999 the operation returns 1, but the
    list-all that follows raises instead of returning the records. *)
Lemma updateStudentEmail_taken_email_raises :
  (ada ∈ students w2 ∧ student_id ada = 1 ∧ "bob@example.com" ≠ ""
   ∧ can_connect env_ok w2 ∧ pk_ok w2
   ∧ fst (updateStudentEmail env_ok 1 "bob@example.com" w2)
       = Raise (IntegrityError "duplicate key value violates unique constraint on email")
   ∧ fst (updateStudentEmail env_ok 1 "bob@example.com" w2) ≠ Ok 1)
  ∧ ((7 ∉ student_id <$> students w2) ∧ String "000" "@example.com" ≠ ""
     ∧ fst (updateStudentEmail env_ok 7 (String "000" "@example.com") w2)
         = Raise (ValueError "A string literal cannot contain NUL (0x00) characters.")
     ∧ fst (updateStudentEmail env_ok 7 (String "000" "@example.com") w2) ≠ Ok 0)
  ∧ (ada ∈ students w3 ∧ can_connect env_ok w3 ∧ pk_ok w3
     ∧ fst (updateStudentEmail env_ok 1 "ada@example.org" w3) = Ok 1
     ∧ fst (getAllStudents env_ok
              (snd (updateStudentEmail env_ok 1 "ada@example.org" w3)))
         = Raise (ValueError "year 10000 is out of range")).
Proof.
  split; [|split].
  - split; [by_member|]. split; [reflexivity|]. split; [discriminate|].
    split; [by apply can_connect_env_ok|]. split; [by_decide|].
    split; [reflexivity | discriminate].
  - split; [by_decide|]. split; [discriminate|]. split; [reflexivity | discriminate].
  - split; [by_member|]. split; [by apply can_connect_env_ok|].
    split; [by_decide|]. split; reflexivity.
Qed.

(** Against C2.  The table holds a date past the year 9999, which the
    store's DATE type takes and the driver cannot hand to the program:
    list-all raises and returns no record. *)
Lemma getAllStudents_far_date_raises :
  pk_ok w3 ∧ can_connect env_ok w3
  ∧ fst (getAllStudents env_ok (run_history env_ok [] w3))
      = Raise (ValueError "year 10000 is out of range")
  ∧ forall rows, fst (getAllStudents env_ok (run_history env_ok [] w3)) ≠ Ok rows.
Proof.
  split; [by_decide|]. split; [by apply can_connect_env_ok|].
  split; [reflexivity | discriminate].
Qed.

(** Against C4.  After update-email raised, the connection the operation
    opened is still open. *)
Lemma raising_operation_leaves_connection_open :
  conns w2 = []
  ∧ fst (updateStudentEmail env_ok 1 "bob@example.com" w2)
      = Raise (IntegrityError "duplicate key value violates unique constraint on email")
  ∧ closed <$> conns (snd (updateStudentEmail env_ok 1 "bob@example.com" w2))
      = [false].
Proof. repeat split; reflexivity. Qed.

(** ** Scenarios of the specification *)

(** Insert without a date: the row is listed with an empty date cell. *)
Example scenario_insert_without_date :
  stdout (snd (main env_ok (CmdAdd "Ada" "Lovelace" "ada@example.com" None) w0))
  = ["Inserted student_id=1";
     "+============+============+===========+=================+=================+";
     "| student_id | first_name | last_name | email           | enrollment_date |";
     "+============+============+===========+=================+=================+";
     "| 1          | Ada        | Lovelace  | ada@example.com |                 |";
     "+============+============+===========+=================+=================+"].
Proof. vm_compute. reflexivity. Qed.

(** Two inserts with the same email: the second fails, the first stays. *)
Example scenario_same_email_twice :
  let w1 := snd (main env_ok (CmdAdd "Ada" "Lovelace" "ada@example.com" None) w0) in
  fst (main env_ok (CmdAdd "Eve" "Other" "ada@example.com" None) w1) = 1
  ∧ students (snd (main env_ok (CmdAdd "Eve" "Other" "ada@example.com" None) w1))
    = [ada]
  ∧ stderr (snd (main env_ok (CmdAdd "Eve" "Other" "ada@example.com" None) w1))
    = ["ERROR: duplicate key value violates unique constraint on email"].
Proof. vm_compute. repeat split; reflexivity. Qed.

(** * Further properties of the program *)

(** ** Connection provider *)


(** X2.  [get_conn] raises its own error, the [RuntimeError], exactly when
    one of the five required variables is absent or empty. *)
Theorem get_conn_config_error_iff (env : environ) (w : world) :
  (exists msg w', get_conn env w = (Raise (RuntimeError msg), w'))
  <-> exists v, v ∈ required_vars ∧ unset env v.
Proof.
  split.
  - intros (msg & w' & Hget). unfold get_conn in Hget.
    destruct (missing_vars env) as [|v vs] eqn:Hmiss.
    + exfalso. unfold bind, int_getenv in Hget.
      destruct (env !! "PGPORT") as [s|]; [|discriminate].
      destruct (int_of (rt w) s) as [n|]; [|discriminate].
      unfold ret, connect in Hget. by destruct (accepts _ _).
    + exists v.
      assert (Hin : v ∈ missing_vars env) by (rewrite Hmiss; apply list_elem_of_here).
      apply list_elem_of_filter in Hin as [Hu Hv]. by split.
  - intros (v & Hv & Hu). exists (missing_msg (missing_vars env)), w.
    apply get_conn_missing. intros Hnil.
    pose proof (unset_missing env v Hv Hu) as Hin. rewrite Hnil in Hin.
    by apply elem_of_nil in Hin.
Qed.

(** ** Data access operations *)

(** X3.  An operation that raises, whatever the reason, leaves the table as
    it was: the failed statement is rolled back, nothing was committed. *)
Theorem operation_raise_keeps_table (env : environ) (c : call) (w w' : world)
    (e : exn) :
  perform env c w = (Raise e, w') -> students w' = students w.
Proof.
  intros Hrun. destruct (perform_frame env c w) as (_ & _ & _ & _ & _ & Hkeep).
  rewrite Hrun in Hkeep. by apply (Hkeep e).
Qed.

(** X4.  List-all only reads: on every path the table and the sequence are
    as before, and what it returns has one row per record. *)
Theorem getAllStudents_reads_only (env : environ) (w : world) :
  students (snd (getAllStudents env w)) = students w
  ∧ seq (snd (getAllStudents env w)) = seq w
  ∧ forall rows, fst (getAllStudents env w) = Ok rows ->
      length rows = length (students w).
Proof.
  destruct (can_connect_cases env w) as [(p & Hres & Hacc)|Hno].
  - rewrite (getAllStudents_run env w p Hres Hacc).
    destruct (fetch_rows_inv (merge_sort by_id (students w)))
      as [[_ ->]|[_ (msg & ->)]]; cbn [fst snd]; repeat split.
    + intros rows [= <-]. by rewrite length_fmap, merge_sort_Permutation.
    + by intros rows [=].
  - destruct (get_conn_refused env w Hno) as (e & l & Hget & _).
    unfold getAllStudents. rewrite (bind_raise _ _ _ _ _ Hget). by repeat split.
Qed.

Lemma existsb_has_nul (texts : list string) :
  Forall (fun t => has_nul t = false) texts -> existsb has_nul texts = false.
Proof.
  induction 1 as [|t texts Ht _ IH]; [done|]. simpl. by rewrite Ht, IH.
Qed.

(** X5.  A valid insert returns the id the store assigned and appends the
    record with exactly the given values; the list-all that follows, when
    the driver can hand every date of the table to the program, shows that
    record among one row more than before.  Valid is: on the table of the
    specification, non-empty names and email, no NUL character in a text
    sent, a date that is absent or taken by the store, an email that no
    record holds and a sequence value that no record has. *)
Theorem addStudent_then_list (env : environ) (f l e : string)
    (d : option string) (dt : option date) (w : world) :
  can_connect env w -> spec_table (srv w) ->
  f ≠ "" -> l ≠ "" -> e ≠ "" ->
  Forall (fun t => has_nul t = false) ([f; l; e] ++ option_list d) ->
  date_param (srv w) d = Some dt ->
  seq w ∉ student_id <$> students w ->
  e ∉ email <$> students w ->
  fst (addStudent env (Some f) (Some l) (Some e) d w) = Ok (VInt (seq w))
  ∧ students (snd (addStudent env (Some f) (Some l) (Some e) d w))
    = students w ++ [Student (seq w) f l e dt]
  ∧ (fetchable (students w ++ [Student (seq w) f l e dt]) ->
     exists rows,
       fst (getAllStudents env (snd (addStudent env (Some f) (Some l) (Some e) d w)))
         = Ok rows
       ∧ student_row (Student (seq w) f l e dt) ∈ rows
       ∧ length rows = S (length (students w))).
Proof.
  intros (p & Hres & Hacc) [Htext _] Hf Hl He Hnul Hd Hid Hmail.
  rewrite (addStudent_run env _ _ _ d w p Hres Hacc).
  unfold drive.
  assert (Htexts : stmt_texts (SqlInsert (Some f) (Some l) (Some e) d)
                   = [f; l; e] ++ option_list d) by by destruct d.
  rewrite Htexts, (existsb_has_nul _ Hnul).
  unfold run_statement. rewrite Hd.
  rewrite !Htext by (unfold required_columns; by_member).
  rewrite !bool_decide_eq_false_2 by done. cbn [negb andb].
  cbn [fst snd]. split; [done|]. split; [done|]. intros Hall.
  rewrite (getAllStudents_run env (after_return p _ _ w) p Hres Hacc).
  cbn [students after_return ended]. rewrite fetch_rows_ok.
  - cbn [fst]. eexists. split; [reflexivity|]. split.
    + apply list_elem_of_fmap_2. rewrite merge_sort_Permutation.
      apply elem_of_app. right. apply list_elem_of_here.
    + rewrite length_fmap, merge_sort_Permutation, length_app. simpl. lia.
  - unfold fetchable. by rewrite merge_sort_Permutation.
Qed.

(** X6.  An insert whose email a record already holds raises, whatever the
    other arguments, and the table keeps exactly its records. *)
Theorem addStudent_taken_email (env : environ) (f l d : option string)
    (e : string) (w : world) :
  e ∈ email <$> students w ->
  exists err w', addStudent env f l (Some e) d w = (Raise err, w')
                 ∧ students w' = students w.
Proof.
  intros Htaken. destruct (can_connect_cases env w) as [(p & Hres & Hacc)|Hno].
  - rewrite (addStudent_run env f l (Some e) d w p Hres Hacc).
    destruct (drive _ _ _ _) as [[[res|err] tbl] next] eqn:Hrun.
    + apply drive_insert_ok, insert_ok in Hrun
        as (? & ? & e' & ? & _ & _ & [= <-] & _ & _ & Hfree & _).
      by destruct Hfree.
    + by eexists _, _.
  - destruct (get_conn_refused env w Hno) as (err & a & Hget & _).
    unfold addStudent. rewrite (bind_raise _ _ _ _ _ Hget). by eexists _, _.
Qed.

Lemma filter_id_le_1 (id : Z) (tbl : list student) :
  NoDup (student_id <$> tbl) ->
  (length (filter (fun r => student_id r = id) tbl) <= 1)%nat.
Proof.
  intros Hnd. destruct (decide (id ∈ student_id <$> tbl)) as [Hin|Hnin].
  - apply list_elem_of_fmap in Hin as (r & -> & Hr).
    by rewrite (filter_id_unique r tbl Hnd Hr).
  - rewrite filter_id_absent by done. simpl. lia.
Qed.

(** X7.  As the docstrings say, update-email and delete return 0 or 1
    whenever they return, on a table that satisfies its primary key. *)
Theorem affected_zero_or_one (env : environ) (id : Z) (mail : string)
    (w : world) (n : Z) :
  pk_ok w ->
  (fst (updateStudentEmail env id mail w) = Ok n -> n = 0 ∨ n = 1)
  ∧ (fst (deleteStudent env id w) = Ok n -> n = 0 ∨ n = 1).
Proof.
  intros Hpk. pose proof (filter_id_le_1 id (students w) Hpk) as Hle.
  destruct (can_connect_cases env w) as [(p & Hres & Hacc)|Hno].
  - rewrite (updateStudentEmail_run env id mail w p Hres Hacc).
    rewrite (deleteStudent_run env id w p Hres Hacc).
    unfold drive, run_statement. split.
    + destruct (existsb _ _); [done|]. destruct (_ && _); [done|].
      case_bool_decide; [done|]. simpl. intros [= <-]. lia.
    + simpl. intros [= <-]. lia.
  - destruct (get_conn_refused env w Hno) as (e & l & Hget & _).
    unfold updateStudentEmail, deleteStudent.
    rewrite !(bind_raise _ _ _ _ _ Hget). by split.
Qed.

(** X8.  Deleting the id of a record returns 1, removes that record and no
    other. *)
Theorem deleteStudent_existing_id (env : environ) (r : student) (w : world) :
  pk_ok w -> can_connect env w -> r ∈ students w ->
  fst (deleteStudent env (student_id r) w) = Ok 1
  ∧ (student_id r ∉ student_id <$> students (snd (deleteStudent env (student_id r) w)))
  ∧ (forall x, x ∈ students w -> student_id x ≠ student_id r ->
       x ∈ students (snd (deleteStudent env (student_id r) w)))
  ∧ S (length (students (snd (deleteStudent env (student_id r) w))))
    = length (students w).
Proof.
  intros Hpk (p & Hres & Hacc) Hr.
  rewrite (deleteStudent_run env _ w p Hres Hacc). unfold run_statement.
  rewrite (filter_id_unique r _ Hpk Hr). cbn [fst snd students after_return ended].
  split; [done|]. split; [|split].
  - intros Hin. apply list_elem_of_fmap in Hin as (x & Heq & Hx).
    apply list_elem_of_filter in Hx as [Hne _]. by apply Hne.
  - intros x Hx Hne. by apply list_elem_of_filter.
  - pose proof (filter_app_complement (fun x => student_id x = student_id r)
                  (students w)) as Hperm.
    apply Permutation_length in Hperm. rewrite length_app in Hperm.
    rewrite (filter_id_unique r _ Hpk Hr) in Hperm. simpl in Hperm. lia.
Qed.

(** X9.  Update-email changes nothing but emails: on every path the records
    keep their ids, names and dates, in the same order, and a record with
    another id is kept as it is. *)
Theorem updateStudentEmail_touches_email_only (env : environ) (id : Z)
    (mail : string) (w : world) :
  (fun r => (student_id r, first_name r, last_name r, enrollment_date r))
     <$> students (snd (updateStudentEmail env id mail w))
  = (fun r => (student_id r, first_name r, last_name r, enrollment_date r))
      <$> students w
  ∧ forall x, x ∈ students w -> student_id x ≠ id ->
      x ∈ students (snd (updateStudentEmail env id mail w)).
Proof.
  destruct (can_connect_cases env w) as [(p & Hres & Hacc)|Hno].
  - rewrite (updateStudentEmail_run env id mail w p Hres Hacc).
    unfold drive, run_statement. destruct (existsb _ _); [done|].
    destruct (_ && _); [done|]. case_bool_decide; [done|].
    cbn [fst snd students after_return ended]. split.
    + rewrite <- list_fmap_compose. apply list_fmap_ext. intros i r _. simpl.
      by destruct (has_id id r).
    + intros x Hx Hne. apply list_elem_of_fmap. exists x. split; [|done].
      unfold has_id. by rewrite bool_decide_eq_false_2.
  - destruct (get_conn_refused env w Hno) as (e & l & Hget & _).
    unfold updateStudentEmail. rewrite (bind_raise _ _ _ _ _ Hget). by split.
Qed.

(** X10.  Deleting the same id a second time finds nothing: it returns 0
    and leaves the table as the first delete left it. *)
Theorem deleteStudent_twice (env : environ) (id : Z) (w : world) :
  can_connect env w ->
  fst (deleteStudent env id (snd (deleteStudent env id w))) = Ok 0
  ∧ students (snd (deleteStudent env id (snd (deleteStudent env id w))))
    = students (snd (deleteStudent env id w)).
Proof.
  intros (p & Hres & Hacc).
  assert (Hw1 : snd (deleteStudent env id w)
                = after_return p (filter (fun r => student_id r ≠ id) (students w))
                               (seq w) w)
    by (by rewrite (deleteStudent_run env id w p Hres Hacc)).
  rewrite Hw1.
  rewrite (deleteStudent_run env id (after_return p _ _ w) p Hres Hacc).
  cbn [students after_return ended srv seq].
  rewrite delete_run_absent; [done|].
  intros Hin. apply list_elem_of_fmap in Hin as (x & Heq & Hx).
  apply list_elem_of_filter in Hx as [Hne _]. by apply Hne.
Qed.

(** ** Renderer *)

Lemma getitem_missing (r : row) (h : string) :
  h ∉ keys r -> getitem r h = Raise (KeyError h).
Proof.
  induction r as [|[k v] r IH]; intros Hnin; [done|]. simpl.
  unfold keys in Hnin. rewrite fmap_cons, not_elem_of_cons in Hnin.
  destruct Hnin as [Hne Hnin]. simpl in Hne.
  rewrite decide_False by congruence. by apply IH.
Qed.

Lemma widen_row_missing (r : row) (hs : list string) (ws : gmap string nat) :
  (exists h, h ∈ hs ∧ h ∉ keys r) ->
  exists k, foldR (widen r) hs ws = Raise (KeyError k) ∧ k ∈ hs.
Proof.
  revert ws. induction hs as [|a hs IH]; intros ws (h & Hh & Hnin).
  - by apply elem_of_nil in Hh.
  - simpl. unfold widen at 1. destruct (decide (a ∈ keys r)) as [Ha|Ha].
    + rewrite (getitem_field r a Ha).
      apply elem_of_cons in Hh as [->|Hh]; [done|].
      destruct (IH (<[a:=Nat.max (ws !!! a) (cell_len (field r a))]> ws))
        as (k & -> & Hk); [by exists h|].
      exists k. split; [done|]. by apply list_elem_of_further.
    + rewrite (getitem_missing r a Ha). exists a. split; [done|].
      apply list_elem_of_here.
Qed.

Lemma widen_rows_missing (rows : list row) (hs : list string)
    (ws : gmap string nat) :
  Exists (fun r => exists h, h ∈ hs ∧ h ∉ keys r) rows ->
  exists k, foldR (fun ws r => foldR (widen r) hs ws) rows ws = Raise (KeyError k)
            ∧ k ∈ hs.
Proof.
  revert ws. induction rows as [|r rows IH]; intros ws Hex.
  - by apply Exists_nil in Hex.
  - simpl. destruct (decide (Forall (fun h => h ∈ keys r) hs)) as [Hall|Hnot].
    + rewrite Forall_forall in Hall.
      destruct (widen_row r hs ws Hall) as (ws1 & -> & _).
      apply Exists_cons in Hex as [(h & Hh & Hnin)|Hex]; [by destruct Hnin; apply Hall|].
      by apply IH.
    + apply not_Forall_Exists in Hnot; [|apply _].
      apply Exists_exists in Hnot as (h & Hh & Hnin).
      destruct (widen_row_missing r hs ws) as (k & -> & Hk); [by exists h|].
      by exists k.
Qed.

(** X11.  When some record lacks a key of the first record, [print_table]
    raises [KeyError] for a key of the first record while it measures the
    columns, before it prints anything. *)
Theorem print_table_missing_key (r0 : row) (rest : list row) (w : world)
    (r : row) (h : string) :
  r ∈ r0 :: rest -> h ∈ keys r0 -> h ∉ keys r ->
  exists k, print_table (r0 :: rest) w = (Raise (KeyError k), w) ∧ k ∈ keys r0.
Proof.
  intros Hr Hh Hnin.
  destruct (widen_rows_missing (r0 :: rest) (keys r0) (init_widths (keys r0)))
    as (k & Hraise & Hk).
  { apply Exists_exists. exists r. split; [done|]. by exists h. }
  exists k. split; [|done]. unfold print_table.
  change (foldR _ (r0 :: rest) (init_widths (keys r0)))
    with (compute_widths (keys r0) (r0 :: rest)) in Hraise.
  rewrite Hraise. reflexivity.
Qed.

Lemma py_len_concat (sep : string) (l : list string) :
  l ≠ [] ->
  (py_len (String.concat sep l) + py_len sep
   = sum_list ((fun s => py_len s + py_len sep) <$> l))%nat.
Proof.
  induction l as [|x l IH]; intros Hne; [done|].
  destruct l as [|y l].
  - cbn. lia.
  - change (String.concat sep (x :: y :: l))
      with (x +:+ sep +:+ String.concat sep (y :: l)).
    rewrite !py_len_append, fmap_cons.
    change (sum_list (?a :: ?b)) with (a + sum_list b)%nat.
    rewrite <- IH by done. lia.
Qed.

(** The length of [a ++ sep.join(f(h) for h in hs) ++ b] when [f h] has a
    known length. *)
Lemma py_len_joined (a sep b : string) (f : string -> string)
    (len : string -> nat) (hs : list string) :
  hs ≠ [] -> (forall h, h ∈ hs -> py_len (f h) = len h) ->
  (py_len (a +:+ String.concat sep (f <$> hs) +:+ b) + py_len sep
   = py_len a + py_len b + sum_list ((fun h => len h + py_len sep) <$> hs))%nat.
Proof.
  intros Hne Hlen. rewrite !py_len_append.
  assert (Hne' : f <$> hs ≠ []) by (by destruct hs).
  pose proof (py_len_concat sep (f <$> hs) Hne') as Hc.
  rewrite <- list_fmap_compose in Hc.
  rewrite (list_fmap_ext _ (fun h => len h + py_len sep)%nat) in Hc.
  - lia.
  - intros i h Hi. simpl. rewrite Hlen; [done|]. by eapply list_elem_of_lookup_2.
Qed.

Lemma cell_fits (rows : list row) (r : row) (h : string) :
  r ∈ rows -> (py_len (cell (field r h)) <= col_width rows h)%nat.
Proof.
  intros Hr. unfold col_width.
  assert (value_width (field r h)
          <= max_list ((fun r => value_width (field r h)) <$> rows))%nat.
  { apply max_list_elem_of_le.
    by apply (list_elem_of_fmap_2 (fun r => value_width (field r h))). }
  assert (py_len (cell (field r h)) = value_width (field r h))
    by by destruct (field r h).
  lia.
Qed.

(** X12.  A table with at least one column is a rectangle: for records with
    the same keys, [print_table] prints the table of the specification,
    which has four lines more than there are records (one of them the
    header), all of the same length, counted in characters: one more than
    the sum over the columns of the width plus 3. *)
Theorem print_table_rectangular (r0 : row) (rest : list row) (w : world) :
  Forall (shares_keys r0) rest -> keys r0 ≠ [] ->
  print_table (r0 :: rest) w
    = (Ok tt, set_stdout (stdout w ++ render (r0 :: rest)) w)
  ∧ length (render (r0 :: rest)) = (length rest + 5)%nat
  ∧ Forall (fun l => py_len l
                     = S (sum_list ((fun h => col_width (r0 :: rest) h + 3)%nat
                                      <$> keys r0))) (render (r0 :: rest)).
Proof.
  intros Hshare Hne. split; [|split].
  { apply print_table_render. intros r1 r [= <-] Hr.
    apply elem_of_cons in Hr as [->|Hr]; [done|].
    rewrite Forall_forall in Hshare. by apply Hshare. }
  { unfold render. rewrite !length_app, length_fmap. simpl. lia. }
  unfold render. cbv zeta.
  assert (Hborder : py_len (border (r0 :: rest) (keys r0))
                    = S (sum_list ((fun h => col_width (r0 :: rest) h + 3)%nat
                                     <$> keys r0))).
  { assert (Hf : forall h, h ∈ keys r0 ->
                py_len (segment (r0 :: rest) h) = (col_width (r0 :: rest) h + 2)%nat).
    { intros h Hh. unfold segment. by rewrite py_len_str_mul. }
    pose proof (py_len_joined "+" "+" "+" _ _ (keys r0) Hne Hf) as Hl.
    change (py_len "+") with 1%nat in Hl.
    rewrite (list_fmap_ext _ (fun h => col_width (r0 :: rest) h + 3)%nat) in Hl
      by (intros i h _; simpl; lia).
    unfold border. lia. }
  assert (Hrow : forall f : string -> string,
            (forall h, h ∈ keys r0 -> py_len (f h) = col_width (r0 :: rest) h) ->
            py_len (framed (f <$> keys r0))
            = S (sum_list ((fun h => col_width (r0 :: rest) h + 3)%nat <$> keys r0))).
  { intros f Hf. unfold framed.
    pose proof (py_len_joined "| " " | " " |" f _ (keys r0) Hne Hf) as Hl.
    change (py_len "| ") with 2%nat in Hl.
    change (py_len " | ") with 3%nat in Hl.
    change (py_len " |") with 2%nat in Hl.
    lia. }
  apply Forall_app. split; [|apply Forall_app; split].
  - apply Forall_cons_2; [exact Hborder|].
    apply Forall_cons_2; [|apply Forall_cons_2; [exact Hborder | apply Forall_nil_2]].
    apply Hrow. intros h Hh. apply py_len_ljust. unfold col_width. lia.
  - rewrite Forall_fmap. apply Forall_forall. intros r Hr.
    unfold compose. apply Hrow.
    intros h Hh. apply py_len_ljust.
    assert (shown (field r h) = cell (field r h)) as -> by by destruct (field r h).
    by apply cell_fits.
  - apply Forall_cons_2; [exact Hborder | apply Forall_nil_2].
Qed.

(** ** Dispatcher *)

(** What list-all returns can always be drawn. *)
Lemma print_table_student_rows (recs : list student) (w : world) :
  print_table (student_row <$> recs) w
  = (Ok tt, set_stdout (stdout w ++ render (student_row <$> recs)) w).
Proof.
  apply print_table_render. intros r0 r Hhead Hr.
  destruct recs as [|x recs]; [done|]. injection Hhead as <-.
  apply list_elem_of_fmap in Hr as (y & -> & _). by intros h.
Qed.

Lemma length_render_student_rows (recs : list student) :
  length (render (student_row <$> recs))
  = match recs with
    | [] => 1%nat
    | _ :: _ => (length recs + 4)%nat
    end.
Proof.
  destruct recs as [|r recs]; [done|]. rewrite fmap_cons. unfold render.
  rewrite !length_app, !length_fmap. simpl. rewrite length_fmap. lia.
Qed.

Lemma merge_sort_nil_iff (tbl : list student) :
  match merge_sort by_id tbl with
  | [] => 1%nat
  | _ :: _ => (length (merge_sort by_id tbl) + 4)%nat
  end
  = match tbl with
    | [] => 1%nat
    | _ :: _ => (length tbl + 4)%nat
    end.
Proof.
  pose proof (Permutation_length (merge_sort_Permutation by_id tbl)) as Hlen.
  destruct (merge_sort by_id tbl), tbl; simpl in *; lia.
Qed.

Lemma fetch_sorted_ok (tbl : list student) :
  fetchable tbl ->
  mapR fetch_row (student_row <$> merge_sort by_id tbl)
  = Ok (student_row <$> merge_sort by_id tbl).
Proof.
  intros Hall. apply fetch_rows_ok. unfold fetchable.
  by rewrite merge_sort_Permutation.
Qed.

Lemma fetch_sorted_raises (tbl : list student) :
  ¬ fetchable tbl ->
  exists msg,
    mapR fetch_row (student_row <$> merge_sort by_id tbl) = Raise (ValueError msg).
Proof.
  intros Hnot. destruct (fetch_rows_inv (merge_sort by_id tbl)) as [[Hf _]|[_ Hr]];
    [|done].
  destruct Hnot. unfold fetchable in *. by rewrite merge_sort_Permutation in Hf.
Qed.

(** X13.  Once the connection is acquired, the [get-all] command succeeds
    exactly when the driver can hand every date of the table to the
    program.  Then it exits with status 0, writes nothing to the error
    stream, leaves the table as it was and prints the table of the rows
    list-all returns: the placeholder line for an empty table, four lines
    more than there are records otherwise.  When some date lies outside
    the years 1 to 9999, it exits with status 1 and prints nothing. *)
Theorem main_get_all (env : environ) (w : world) :
  can_connect env w ->
  (fetchable (students w) ->
   exists rows,
     fst (getAllStudents env w) = Ok rows
     ∧ fst (main env CmdGetAll w) = 0
     ∧ stderr (snd (main env CmdGetAll w)) = stderr w
     ∧ students (snd (main env CmdGetAll w)) = students w
     ∧ stdout (snd (main env CmdGetAll w)) = stdout w ++ render rows
     ∧ length (render rows) = match students w with
                              | [] => 1%nat
                              | _ :: _ => (length (students w) + 4)%nat
                              end)
  ∧ (¬ fetchable (students w) ->
     fst (main env CmdGetAll w) = 1
     ∧ stdout (snd (main env CmdGetAll w)) = stdout w
     ∧ students (snd (main env CmdGetAll w)) = students w).
Proof.
  intros (p & Hres & Hacc). unfold main, dispatch, bind.
  rewrite (getAllStudents_run env w p Hres Hacc). split.
  - intros Hall. rewrite (fetch_sorted_ok _ Hall).
    rewrite print_table_student_rows. eexists. split; [reflexivity|].
    cbn [fst snd]. repeat split.
    by rewrite length_render_student_rows, merge_sort_nil_iff.
  - intros Hnot. destruct (fetch_sorted_raises _ Hnot) as (msg & ->).
    by cbn [fst snd].
Qed.

Lemma main_delete_run (env : environ) (id : Z) (w : world) (p : conn_params) :
  resolve (rt w) env = Some p -> accepts (srv w) p = true ->
  fetchable (students w) ->
  getAllStudents env (snd (deleteStudent env id w))
    = (Ok (student_row <$> merge_sort by_id
             (filter (fun r => student_id r ≠ id) (students w))),
       after_return p (filter (fun r => student_id r ≠ id) (students w)) (seq w)
         (after_return p (filter (fun r => student_id r ≠ id) (students w))
            (seq w) w))
  ∧ main env (CmdDelete id) w =
      (0, set_stdout
            (stdout w
             ++ ["Rows deleted: "
                 +:+ pretty (Z.of_nat (length (filter (fun r => student_id r = id)
                                                      (students w))))]
             ++ render (student_row <$> merge_sort by_id
                          (filter (fun r => student_id r ≠ id) (students w))))
            (after_return p (filter (fun r => student_id r ≠ id) (students w)) (seq w)
               (after_return p (filter (fun r => student_id r ≠ id) (students w))
                  (seq w) w))).
Proof.
  intros Hres Hacc Hall.
  assert (Hall' : fetchable (filter (fun r => student_id r ≠ id) (students w))).
  { unfold fetchable in *. rewrite Forall_forall in *. intros r Hr.
    apply list_elem_of_filter in Hr as [_ Hr]. by apply Hall. }
  split.
  - rewrite (deleteStudent_run env id w p Hres Hacc). unfold run_statement.
    cbn [snd].
    rewrite (getAllStudents_run env (after_return p _ _ w) p Hres Hacc).
    cbn [students after_return ended seq]. by rewrite (fetch_sorted_ok _ Hall').
  - unfold main, dispatch.
    unfold bind at 1. rewrite (deleteStudent_run env id w p Hres Hacc).
    unfold run_statement. cbn [rowcount].
    unfold bind at 1. unfold print at 1.
    unfold bind at 1.
    rewrite (getAllStudents_run env (set_stdout _ (after_return p _ _ w)) p Hres Hacc).
    cbn [students set_stdout after_return ended seq].
    rewrite (fetch_sorted_ok _ Hall'), print_table_student_rows.
    simpl. by rewrite <- app_assoc.
Qed.

(** X14.  Once the connection is acquired, on a table that satisfies its
    primary key and whose dates the driver can hand to the program, the
    [delete] command succeeds: it exits with status 0, writes nothing to
    the error stream, removes exactly the records with the id, of which
    there is one at most, prints [Rows deleted: ] with their number and
    then the table of the rows that list-all returns after the delete, and
    makes two attempts on the store, one for the delete and one for the
    list. *)
Theorem main_delete (env : environ) (id : Z) (w : world) :
  pk_ok w -> can_connect env w -> fetchable (students w) ->
  exists rows,
    fst (getAllStudents env (snd (deleteStudent env id w))) = Ok rows
    ∧ fst (main env (CmdDelete id) w) = 0
    ∧ stderr (snd (main env (CmdDelete id) w)) = stderr w
    ∧ students (snd (main env (CmdDelete id) w))
      = filter (fun r => student_id r ≠ id) (students w)
    ∧ length (attempts (snd (main env (CmdDelete id) w)))
      = (length (attempts w) + 2)%nat
    ∧ stdout (snd (main env (CmdDelete id) w))
      = stdout w
        ++ ["Rows deleted: "
            +:+ pretty (Z.of_nat (length (filter (fun r => student_id r = id)
                                                 (students w))))]
        ++ render rows
    ∧ (length (filter (fun r => student_id r = id) (students w)) <= 1)%nat.
Proof.
  intros Hpk (p & Hres & Hacc) Hall.
  destruct (main_delete_run env id w p Hres Hacc Hall) as [-> ->].
  eexists. split; [reflexivity|].
  split; [reflexivity|]. split; [reflexivity|]. split; [reflexivity|]. split.
  { simpl. rewrite !length_app. simpl. lia. }
  split; [reflexivity|]. by apply filter_id_le_1.
Qed.

(** ** The further properties at concrete inputs *)


Lemma operation_raise_keeps_table_witness :
  students (snd (perform env_ok (CallAdd (Some "Eve") None (Some "eve@example.com")
                                         None) w2))
  = students w2.
Proof.
  apply (operation_raise_keeps_table env_ok
           (CallAdd (Some "Eve") None (Some "eve@example.com") None) w2
           (snd (perform env_ok (CallAdd (Some "Eve") None (Some "eve@example.com")
                                         None) w2))
           (IntegrityError "null value violates not-null constraint")).
  apply pair_eta_eq. reflexivity.
Defined.

Lemma addStudent_then_list_witness :
  fst (addStudent env_ok (Some "Di") (Some "Dev") (Some "di@example.com")
                  (Some "2024-02-29") w2) = Ok (VInt 3)
  ∧ students (snd (addStudent env_ok (Some "Di") (Some "Dev")
                              (Some "di@example.com") (Some "2024-02-29") w2))
    = students w2 ++ [Student 3 "Di" "Dev" "di@example.com" (Some (Date 2024 2 29))]
  ∧ exists rows,
      fst (getAllStudents env_ok
             (snd (addStudent env_ok (Some "Di") (Some "Dev")
                              (Some "di@example.com") (Some "2024-02-29") w2)))
        = Ok rows
      ∧ student_row (Student 3 "Di" "Dev" "di@example.com" (Some (Date 2024 2 29)))
          ∈ rows
      ∧ length rows = S (length (students w2)).
Proof.
  destruct (addStudent_then_list env_ok "Di" "Dev" "di@example.com"
              (Some "2024-02-29") (Some (Date 2024 2 29)) w2)
    as (Hid & Htbl & Hlist);
    [by apply can_connect_env_ok
    | split; [intros col txt _; reflexivity | intros txt Htxt; exact Htxt]
    | discriminate | discriminate | discriminate
    | by_decide | reflexivity | by_decide | by_decide |].
  split; [exact Hid|]. split; [exact Htbl|]. apply Hlist. by_decide.
Defined.

Lemma addStudent_taken_email_witness :
  exists err w',
    addStudent env_ok (Some "Eve") (Some "Other") (Some "ada@example.com") None w2
      = (Raise err, w')
    ∧ students w' = students w2.
Proof.
  apply (addStudent_taken_email env_ok (Some "Eve") (Some "Other") None
           "ada@example.com" w2).
  by_decide.
Defined.

(** Updating bob's email returns 1; deleting the id 7, which no record
    has, returns 0. *)
Lemma affected_zero_or_one_witness :
  exists n m,
    fst (updateStudentEmail env_ok 2 "bob@example.org" w2) = Ok n ∧ (n = 0 ∨ n = 1)
    ∧ fst (deleteStudent env_ok 7 w2) = Ok m ∧ (m = 0 ∨ m = 1).
Proof.
  assert (Hpk : pk_ok w2) by by_decide.
  exists 1, 0. split; [reflexivity|]. split.
  - apply (proj1 (affected_zero_or_one env_ok 2 "bob@example.org" w2 1 Hpk)).
    reflexivity.
  - split; [reflexivity|].
    apply (proj2 (affected_zero_or_one env_ok 7 "bob@example.org" w2 0 Hpk)).
    reflexivity.
Defined.

Lemma deleteStudent_existing_id_witness :
  fst (deleteStudent env_ok (student_id bob) w2) = Ok 1
  ∧ (student_id bob
       ∉ student_id <$> students (snd (deleteStudent env_ok (student_id bob) w2)))
  ∧ (forall x, x ∈ students w2 -> student_id x ≠ student_id bob ->
       x ∈ students (snd (deleteStudent env_ok (student_id bob) w2)))
  ∧ S (length (students (snd (deleteStudent env_ok (student_id bob) w2))))
    = length (students w2).
Proof.
  apply (deleteStudent_existing_id env_ok bob w2);
    [by_decide | by apply can_connect_env_ok | by_member].
Defined.

Lemma deleteStudent_twice_witness :
  fst (deleteStudent env_ok 1 (snd (deleteStudent env_ok 1 w2))) = Ok 0
  ∧ students (snd (deleteStudent env_ok 1 (snd (deleteStudent env_ok 1 w2))))
    = students (snd (deleteStudent env_ok 1 w2)).
Proof.
  apply (deleteStudent_twice env_ok 1 w2). by apply can_connect_env_ok.
Defined.

(** The second record has no email. *)
Lemma print_table_missing_key_witness :
  exists k,
    print_table [student_row ada; [("student_id", VInt 2); ("first_name", VStr "Bob")]]
                w0
      = (Raise (KeyError k), w0)
    ∧ k ∈ keys (student_row ada).
Proof.
  apply (print_table_missing_key (student_row ada)
           [[("student_id", VInt 2); ("first_name", VStr "Bob")]] w0
           [("student_id", VInt 2); ("first_name", VStr "Bob")] "email");
    [by_member | by_member | by_decide].
Defined.

Lemma print_table_rectangular_witness :
  print_table [student_row ada; student_row bob] w0
    = (Ok tt, set_stdout (stdout w0 ++ render [student_row ada; student_row bob]) w0)
  ∧ length (render [student_row ada; student_row bob])
    = (length [student_row bob] + 5)%nat
  ∧ Forall (fun l => py_len l
                     = S (sum_list
                            ((fun h => col_width [student_row ada; student_row bob] h
                                       + 3)%nat
                               <$> keys (student_row ada))))
           (render [student_row ada; student_row bob]).
Proof.
  apply (print_table_rectangular (student_row ada) [student_row bob] w0).
  - apply Forall_cons. split; [|apply Forall_nil_2]. intros h. reflexivity.
  - discriminate.
Defined.

(** The table of two records is listed; the one with a date past the year
    9999 is not. *)
Lemma main_get_all_witness :
  (exists rows,
     fst (getAllStudents env_ok w2) = Ok rows
     ∧ fst (main env_ok CmdGetAll w2) = 0
     ∧ stderr (snd (main env_ok CmdGetAll w2)) = stderr w2
     ∧ students (snd (main env_ok CmdGetAll w2)) = students w2
     ∧ stdout (snd (main env_ok CmdGetAll w2)) = stdout w2 ++ render rows
     ∧ length (render rows) = 6%nat)
  ∧ (fst (main env_ok CmdGetAll w3) = 1
     ∧ stdout (snd (main env_ok CmdGetAll w3)) = stdout w3
     ∧ students (snd (main env_ok CmdGetAll w3)) = students w3).
Proof.
  split.
  - apply (proj1 (main_get_all env_ok w2 (can_connect_env_ok w2 eq_refl eq_refl))).
    by_decide.
  - apply (proj2 (main_get_all env_ok w3 (can_connect_env_ok w3 eq_refl eq_refl))).
    by_decide.
Defined.

Example main_get_all_far_date :
  fst (main env_ok CmdGetAll w3) = 1
  ∧ stderr (snd (main env_ok CmdGetAll w3)) = ["ERROR: year 10000 is out of range"]
  ∧ closed <$> conns (snd (main env_ok CmdGetAll w3)) = [false].
Proof. vm_compute. repeat split; reflexivity. Qed.

Lemma main_delete_witness :
  exists rows,
    fst (getAllStudents env_ok (snd (deleteStudent env_ok 2 w2))) = Ok rows
    ∧ fst (main env_ok (CmdDelete 2) w2) = 0
    ∧ stderr (snd (main env_ok (CmdDelete 2) w2)) = stderr w2
    ∧ students (snd (main env_ok (CmdDelete 2) w2))
      = filter (fun r => student_id r ≠ 2) (students w2)
    ∧ length (attempts (snd (main env_ok (CmdDelete 2) w2)))
      = (length (attempts w2) + 2)%nat
    ∧ stdout (snd (main env_ok (CmdDelete 2) w2))
      = stdout w2
        ++ ["Rows deleted: "
            +:+ pretty (Z.of_nat (length (filter (fun r => student_id r = 2)
                                                 (students w2))))]
        ++ render rows
    ∧ (length (filter (fun r => student_id r = 2%Z) (students w2)) <= 1)%nat.
Proof.
  apply (main_delete env_ok 2 w2);
    [by_decide | by apply can_connect_env_ok | by_decide].
Defined.

(** The delete command on the table of two records. *)
Example scenario_delete :
  stdout (snd (main env_ok (CmdDelete 2) w2))
  = ["Rows deleted: 1";
     "+============+============+===========+=================+=================+";
     "| student_id | first_name | last_name | email           | enrollment_date |";
     "+============+============+===========+=================+=================+";
     "| 1          | Ada        | Lovelace  | ada@example.com |                 |";
     "+============+============+===========+=================+=================+"].
Proof. vm_compute. reflexivity. Qed.
